(** * Command dispatch and role provisioning of the UO Discord bot

    A shallow embedding of [Bot] (bot.ts): the command registry
    ([addCommand]), the message dispatcher ([_onMessage]) and the gRPC
    facing role service ([getUserRoles], [provisionUserRoles],
    [_assignUserRoles], [_revokeUserRoles]).

    JavaScript exceptions are values of [Result]; the bot object and the
    process-wide counter are threaded explicitly; every call that leaves
    the process (platform requests, log lines, audit embeds, handler
    invocations, [process.exit]) is appended to a write-only list of
    [Event]s.  The outcome of each platform request is chosen by an
    arbitrary [Platform] oracle, so that statements quantified over the
    oracle hold for every behaviour of the chat platform. *)

From Stdlib Require Import String Ascii List ZArith Bool Lia.
From stdpp Require Import base gmap strings.
Import ListNotations.

Local Open Scope string_scope.
Local Open Scope list_scope.

(** ** JavaScript string primitives used by the bot *)
Module JS.

(** [s.split(sep)] for a one character separator: never empty. *)
Fixpoint split (sep : ascii) (s : string) : list string :=
  match s with
  | EmptyString => [EmptyString]
  | String c rest =>
      if Ascii.eqb c sep then EmptyString :: split sep rest
      else match split sep rest with
           | h :: t => String c h :: t
           | [] => [String c EmptyString]
           end
  end.

(** [s.slice(1)] *)
Definition slice1 (s : string) : string :=
  match s with
  | EmptyString => EmptyString
  | String _ rest => rest
  end.

(** [s.startsWith(c)] for a one character prefix. *)
Definition startsWith (c : ascii) (s : string) : bool :=
  match s with
  | EmptyString => false
  | String d _ => Ascii.eqb d c
  end.



(** [xs.join(sep)] *)
Definition join (sep : string) (xs : list string) : string :=
  String.concat sep xs.

(** Truthiness of an optional string: [undefined] and the empty string
    are falsy. *)
Definition truthy (s : option string) : bool :=
  match s with
  | Some (String _ _) => true
  | _ => false
  end.

(** Message of the [TypeError] raised by reading a property of [null]
    or [undefined]. *)
Definition TypeError_read (prop nullish : string) : string :=
  "Cannot read property '" +:+ prop +:+ "' of " +:+ nullish.

End JS.

(** ** Data model: what the platform client hands to the bot *)

Record Role := { role_id : string; role_name : string }.

Record User := { user_id : string; username : string; bot : bool }.

(** A guild member: [m.id] is [m.user.id]; [roles] is the collection of
    roles currently held, keyed by role id. *)
Record GuildMember := { user : User; roles : list Role }.

Record Guild := {
  guild_id : string;
  members : list GuildMember;
  guild_roles : list Role
}.

(** [msg.guild] is absent for a direct message. *)
Record Message := { author : User; content : string; guild : option Guild }.

(** Outcome of an awaited call: a value, or a thrown [Error], which is
    represented by its [message] (all the handlers read of it). *)
Inductive Result (A : Type) : Type :=
| Ok (a : A)
| Throw (message : string).
Arguments Ok {A} a.
Arguments Throw {A} message.

(** [type BotAction = (guild, msg, args) => Promise<string>]: command
    bodies are black boxes that resolve to an outcome string or reject.
    What a body does to the guild it is handed is outside this model. *)
Definition BotAction : Type :=
  option Guild -> Message -> list string -> Result string.

(** [CommandProvision] from lib/access: a named wrapper of handlers. *)
Record CommandProvision := {
  provision_name : string;
  provision_wrap : BotAction -> BotAction
}.

(** [type UserRoleSets = { users: { id, roles }[] }] *)
Definition UserRoleSets : Type := list (string * list string).

Inductive Level := LError | LCmd.

(** Everything the bot does to the outside world, in program order.  A
    platform request is recorded when it is issued, with its outcome
    ([None]: resolved, [Some e]: rejected with message [e]). *)
Inductive Event :=
| EvLog (lvl : Level) (text : string)
| EvDelete (m : Message) (err : option string)
| EvSend (to : User) (text : string) (err : option string)
| EvAddRoles (member : string) (rs : list Role) (err : option string)
| EvRemoveRoles (member : string) (rs : list Role) (err : option string)
| EvAudit (actor : option string) (action result : string)
| EvCommandUse (m : Message) (output : string)
| EvInvoke (g : option Guild) (m : Message) (args : list string)
           (outcome : Result string)
| EvExit (code : Z).

(** The behaviour of the collaborators the bot cannot control: whether a
    platform request rejects, and whether the embed builders of
    lib/messages throw on their arguments. *)
Record Platform := {
  delete_err : Message -> option string;
  send_err : User -> string -> option string;
  addRoles_err : GuildMember -> list Role -> option string;
  removeRoles_err : GuildMember -> list Role -> option string;
  rolesUpdatedLogMessage_err :
    option GuildMember -> string -> string -> option string;
  commandUseLogMessage_err : Message -> string -> option string
}.

(** The bot object together with the static [Bot.REQUEST_COUNT].
    [_guild] and [_logChannel] are undefined until the client is ready.
    The two [Map]s are kept by content (key to value); their insertion
    order, which only the help listing reads, is not modelled. *)
Record Bot := {
  REQUEST_COUNT : nat;
  _guild : option Guild;
  _logChannel : option string;
  _descriptions : gmap string string;
  _commands : gmap string BotAction
}.

Definition set_REQUEST_COUNT (n : nat) (b : Bot) : Bot :=
  {| REQUEST_COUNT := n; _guild := _guild b; _logChannel := _logChannel b;
     _descriptions := _descriptions b; _commands := _commands b |}.

Definition set_guild (g : option Guild) (b : Bot) : Bot :=
  {| REQUEST_COUNT := REQUEST_COUNT b; _guild := g;
     _logChannel := _logChannel b;
     _descriptions := _descriptions b; _commands := _commands b |}.

Definition set_registry (d : gmap string string) (c : gmap string BotAction)
    (b : Bot) : Bot :=
  {| REQUEST_COUNT := REQUEST_COUNT b; _guild := _guild b;
     _logChannel := _logChannel b; _descriptions := d; _commands := c |}.

(** [new Bot(version)] before the client is ready. *)
Definition new_Bot : Bot :=
  {| REQUEST_COUNT := 0; _guild := None; _logChannel := None;
     _descriptions := ∅; _commands := ∅ |}.

(** ** The effect monad: state, exceptions and the event log *)

Definition M (A : Type) : Type := Bot -> Result A * Bot * list Event.

Definition ret {A} (a : A) : M A := fun b => (Ok a, b, []).

Definition throw {A} (e : string) : M A := fun b => (Throw e, b, []).

Definition bind {A B} (m : M A) (f : A -> M B) : M B := fun b =>
  match m b with
  | (Ok a, b1, t1) => let '(r, b2, t2) := f a b1 in (r, b2, t1 ++ t2)
  | (Throw e, b1, t1) => (Throw e, b1, t1)
  end.

(** [try { body } catch (err) { handler(err.message) }]: the state and
    the events of the interrupted body are kept. *)
Definition try_catch {A} (body : M A) (handler : string -> M A) : M A :=
  fun b =>
    match body b with
    | (Ok a, b1, t1) => (Ok a, b1, t1)
    | (Throw e, b1, t1) =>
        let '(r, b2, t2) := handler e b1 in (r, b2, t1 ++ t2)
    end.

Definition emit (ev : Event) : M unit := fun b => (Ok tt, b, [ev]).

Definition get_bot : M Bot := fun b => (Ok b, b, []).

Definition modify (f : Bot -> Bot) : M unit := fun b => (Ok tt, f b, []).

Declare Scope bot_scope.
Delimit Scope bot_scope with bot.
Notation "'let*' x ':=' c 'in' k" := (bind c (fun x => k))
  (at level 10, x name, c at level 100, k at level 200) : bot_scope.
Notation "c ';;' k" := (bind c (fun _ => k))
  (at level 100, k at level 200, right associativity) : bot_scope.
Local Open Scope bot_scope.

(** Result, final bot and emitted events of a run. *)
Definition result_of {A} (x : Result A * Bot * list Event) : Result A :=
  fst (fst x).
Definition bot_of {A} (x : Result A * Bot * list Event) : Bot :=
  snd (fst x).
Definition events_of {A} (x : Result A * Bot * list Event) : list Event :=
  snd x.

(** [log.error] and [log.cmd] of lib/logger write a line and return. *)
Definition log_error (text : string) : M unit := emit (EvLog LError text).
Definition log_cmd (text : string) : M unit := emit (EvLog LCmd text).

(** ** Platform collaborator: collections and role mutation *)

(** [collection.find(m => m.user.id === id)]: first match or [null]. *)
Definition find_member (g : Guild) (id : string) : option GuildMember :=
  find (fun m => String.eqb (user_id (user m)) id) (members g).

(** [this._guild.roles.find(r => r.name === name)] *)
Definition find_role (g : Guild) (name : string) : option Role :=
  find (fun r => String.eqb (role_name r) name) (guild_roles g).

Definition has_role (rs : list Role) (r : Role) : bool :=
  existsb (fun r' => String.eqb (role_id r') (role_id r)) rs.

(** Roles held once [addRoles(rs)] has resolved: the union, by role id. *)
Definition roles_added (held rs : list Role) : list Role :=
  fold_left (fun acc r => if has_role acc r then acc else acc ++ [r]) rs held.

(** Roles held once [removeRoles(rs)] has resolved.  The request takes
    the ids of [rs] out of the member's own role ids.  The role whose id
    is the guild's id, @everyone, is not one of those ids: [member.roles]
    lists it whenever the guild has it, so no request removes it. *)
Definition roles_removed (everyone : string) (held rs : list Role)
    : list Role :=
  List.filter
    (fun r => String.eqb (role_id r) everyone || negb (has_role rs r)) held.

(** The cached member [id] of the guild gets the role collection [f]. *)
Definition update_member (id : string) (f : list Role -> list Role)
    (g : Guild) : Guild :=
  {| guild_id := guild_id g;
     members :=
       map (fun m => if String.eqb (user_id (user m)) id
                     then {| user := user m; roles := f (roles m) |}
                     else m) (members g);
     guild_roles := guild_roles g |}.

Section WithPlatform.

Variable P : Platform.

(** [await member.addRoles(rs, reason)] *)
Definition addRoles (m : GuildMember) (rs : list Role) : M unit :=
  let id := user_id (user m) in
  match addRoles_err P m rs with
  | Some e => emit (EvAddRoles id rs (Some e));; throw e
  | None =>
      emit (EvAddRoles id rs None);;
      modify (fun b =>
        set_guild (update_member id (fun held => roles_added held rs)
                     <$> _guild b) b)
  end.

(** [await member.removeRoles(rs, reason)] *)
Definition removeRoles (m : GuildMember) (rs : list Role) : M unit :=
  let id := user_id (user m) in
  match removeRoles_err P m rs with
  | Some e => emit (EvRemoveRoles id rs (Some e));; throw e
  | None =>
      emit (EvRemoveRoles id rs None);;
      modify (fun b =>
        set_guild
          ((fun g =>
              update_member id
                (fun held => roles_removed (guild_id g) held rs) g)
             <$> _guild b) b)
  end.

(** [await msg.delete()] *)
Definition msg_delete (msg : Message) : M unit :=
  match delete_err P msg with
  | Some e => emit (EvDelete msg (Some e));; throw e
  | None => emit (EvDelete msg None)
  end.

(** [await msg.author.send(text)] *)
Definition author_send (msg : Message) (text : string) : M unit :=
  match send_err P (author msg) text with
  | Some e => emit (EvSend (author msg) text (Some e));; throw e
  | None => emit (EvSend (author msg) text None)
  end.

(** [this._guild!.members]: a [TypeError] while the guild is undefined. *)
Definition the_guild : M Guild :=
  let* b := get_bot in
  match _guild b with
  | Some g => ret g
  | None => throw (JS.TypeError_read "members" "undefined")
  end.

(** [_logRoleChangeFromAuth(user, action, result)] *)
Definition _logRoleChangeFromAuth (member : option GuildMember)
    (action result : string) : M unit :=
  try_catch
    (let* b := get_bot in
     match _logChannel b with
     | None => throw (JS.TypeError_read "send" "undefined")
     | Some _ =>
         match rolesUpdatedLogMessage_err P member action result with
         | Some e => throw e
         | None =>
             emit (EvAudit (user_id <$> (user <$> member)) action result)
         end
     end)
    (fun _ => log_error "ROLE_CHANGE_LOG_FAILED").

(** [_logCommandUse(cmd, output)] *)
Definition _logCommandUse (cmd : Message) (output : string) : M unit :=
  try_catch
    (let* b := get_bot in
     match _logChannel b with
     | None => throw (JS.TypeError_read "send" "undefined")
     | Some _ =>
         match commandUseLogMessage_err P cmd output with
         | Some e => throw e
         | None => emit (EvCommandUse cmd output)
         end
     end)
    (fun _ => log_error "COMMAND_USE_LOG_FAILED").

(** The [for (const role of names)] loop of both role handlers: names
    that do not resolve in the catalog are skipped. *)
Fixpoint resolve_roles (g : Guild) (names : list string) : list Role :=
  match names with
  | [] => []
  | role :: rest =>
      match find_role g role with
      | Some guildRole => guildRole :: resolve_roles g rest
      | None => resolve_roles g rest
      end
  end.

(** ** Role provisioning service *)

(** [member] is a reference into the guild cache: what a later read
    through it sees is the member as the cache holds it then. *)
Definition live (member : option GuildMember) : M (option GuildMember) :=
  let* b := get_bot in
  ret (m ← member; g ← _guild b; find_member g (user_id (user m))).

(** The [try] block of [_assignUserRoles]. *)
Definition assign_body (id : string) (names : list string) : M bool :=
  let* g := the_guild in
  let member := find_member g id in
  match member with
  | Some m => addRoles m (resolve_roles g names)
  | None => ret tt
  end;;
  let* member := live member in
  _logRoleChangeFromAuth member "AUTH_PROVISIONING" (JS.join ", " names);;
  ret true.

Definition _assignUserRoles (id : string) (names : list string) : M bool :=
  try_catch (assign_body id names)
    (fun err => log_error ("AUTH_PROVISIONING_FAILURE: " +:+ err);;
                ret false).

(** The [try] block of [_revokeUserRoles]; [names = None] is a payload
    without [roles]. *)
Definition revoke_body (id : string) (names : option (list string))
    : M bool :=
  let* g := the_guild in
  let member := find_member g id in
  let* rolesToRevoke :=
    match names with
    | Some l => ret (resolve_roles g l)
    | None =>
        match member with
        | Some m => ret (roles m)
        | None => throw (JS.TypeError_read "roles" "null")
        end
    end in
  match member with
  | Some m => removeRoles m rolesToRevoke
  | None => ret tt
  end;;
  let* member := live member in
  match member with
  | Some m =>
      _logRoleChangeFromAuth member "AUTH_REVOKE"
        (username (user m) +:+ " roles revoked")
  | None => throw (JS.TypeError_read "user" "null")
  end;;
  ret true.

Definition _revokeUserRoles (id : string) (names : option (list string))
    : M bool :=
  try_catch (revoke_body id names)
    (fun err => log_error ("AUTH_REVOKE_FAILURE: " +:+ err);; ret false).

(** [success = success && (await step)]: [step] is not started when
    [success] is already false. *)
Definition and_await (success : bool) (step : M bool) : M bool :=
  if success then step else ret false.

(** [assign && assign.length > 0] *)
Definition nonempty (l : option (list string)) : option (list string) :=
  match l with
  | Some (_ :: _) => l
  | _ => None
  end.

(** The value the revoke list is compared with. *)
Definition ALL : string := "Symbol(all)".

Definition assign_step (id : string) (assign : option (list string))
    (success : bool) : M bool :=
  match nonempty assign with
  | Some names => and_await success (_assignUserRoles id names)
  | None => ret success
  end.

Definition revoke_step (id : string) (revoke : option (list string))
    (success : bool) : M bool :=
  match nonempty revoke with
  | Some names =>
      if (length names =? 1)%nat && String.eqb (hd "" names) ALL
      then and_await success (_revokeUserRoles id None)
      else and_await success (_revokeUserRoles id (Some names))
  | None => ret success
  end.

Definition provisionUserRoles (id : string)
    (assign revoke : option (list string)) : M bool :=
  try_catch
    (let* success := assign_step id assign true in
     let* success := revoke_step id revoke success in
     ret success)
    (fun _ => log_error ("FAILED_GRPC_PROVISION: " +:+ id);; ret false).

(** [getUserRoles(id?)] *)
Definition getUserRoles (id : option string) : M UserRoleSets :=
  if JS.truthy id then
    let id := match id with Some s => s | None => "" end in
    let* g := the_guild in
    match find_member g id with
    | Some m => ret [(id, map role_name (roles m))]
    | None => throw (JS.TypeError_read "roles" "null")
    end
  else
    let* g := the_guild in
    ret (map (fun m => (user_id (user m), map role_name (roles m)))
           (members g)).

(** ** Dispatcher *)

(** [await fn(guild, msg, args)] *)
Definition invoke (fn : BotAction) (g : option Guild) (msg : Message)
    (args : list string) : M string :=
  let outcome := fn g msg args in
  emit (EvInvoke g msg args outcome);;
  match outcome with
  | Ok output => ret output
  | Throw e => throw e
  end.

(** [process.exit(code)] *)
Definition process_exit (code : Z) : M unit := emit (EvExit code).

(** The outcome string on which [!shutdown] ends the process. *)
Definition SHUTDOWN_OK : string := "shutdown successful".

(** [const [cmd, ...args] = msg.content.split(' ')] *)
Definition cmd_of (msg : Message) : string :=
  hd "" (JS.split " " (content msg)).
Definition args_of (msg : Message) : list string :=
  tl (JS.split " " (content msg)).

Definition origin_of (msg : Message) : string :=
  match guild msg with
  | Some _ => "GLD"
  | None => "PM"
  end.

(** The [try] block run when a handler was found. *)
Definition found_body (fn : BotAction) (msg : Message) : M unit :=
  let cmd := cmd_of msg in
  let origin := origin_of msg in
  (if String.eqb origin "GLD" then msg_delete msg else ret tt);;
  let* b := get_bot in
  let* output :=
    invoke fn (match guild msg with
               | Some g => Some g
               | None => _guild b
               end) msg (args_of msg) in
  _logCommandUse msg output;;
  log_cmd ("(" +:+ origin +:+ ")(" +:+ username (author msg) +:+ " - "
           +:+ cmd +:+ ") - " +:+ output);;
  if String.eqb cmd "!shutdown" && String.eqb output SHUTDOWN_OK
  then process_exit 0
  else ret tt.

(** The [try] block run when no handler was found. *)
Definition not_found_body (msg : Message) : M unit :=
  let cmd := cmd_of msg in
  msg_delete msg;;
  author_send msg
    ("Sorry, I wasn't taught how to handle `" +:+ cmd +:+ "`. 🙁");;
  log_error ("NO_COMMAND (" +:+ username (author msg) +:+ ") - " +:+ cmd).

Definition _onMessage (msg : Message) : M unit :=
  if bot (author msg) then ret tt
  else
    let cmd := cmd_of msg in
    let cmdKey := JS.slice1 cmd in
    if JS.startsWith "!" cmd then
      modify (fun b => set_REQUEST_COUNT (S (REQUEST_COUNT b)) b);;
      let* b := get_bot in
      match _commands b !! cmdKey with
      | Some fn =>
          try_catch (found_body fn msg)
            (fun e =>
               log_error ("COMMAND (" +:+ origin_of msg +:+ ")("
                          +:+ username (author msg) +:+ " - " +:+ cmd
                          +:+ ") : " +:+ e))
      | None =>
          try_catch (not_found_body msg)
            (fun _ => log_error "MESSAGE_DELETE")
      end
    else ret tt.

End WithPlatform.

(** ** Command registry *)

(** [addCommand(cmd, desc, action, provision?)] *)
Definition addCommand (cmd desc : string) (action : BotAction)
    (provision : option CommandProvision) (b : Bot) : Bot :=
  let installed :=
    match provision with
    | Some p => provision_wrap p action
    | None => action
    end in
  let desc :=
    match provision with
    | Some p => desc +:+ " _**(" +:+ provision_name p +:+ ")**_"
    | None => desc
    end in
  set_registry (<[cmd := desc]> (_descriptions b))
    (<[cmd := installed]> (_commands b)) b.

(** The two [this._commands.set] calls that open [start(token)]; [help]
    is the handler factory of lib/commands. *)
Definition start_commands (help : gmap string string -> BotAction)
    (b : Bot) : Bot :=
  set_registry (_descriptions b)
    (<["help" := help (_descriptions b)]>
       (<["?" := help (_descriptions b)]> (_commands b))) b.

(** [this._commands.get(key)] *)
Definition resolve (b : Bot) (key : string) : option BotAction :=
  _commands b !! key.

(** One call of [addCommand] as data, and a chain of such calls. *)
Record Registration := {
  reg_cmd : string;
  reg_desc : string;
  reg_action : BotAction;
  reg_provision : option CommandProvision
}.

Definition register (b : Bot) (r : Registration) : Bot :=
  addCommand (reg_cmd r) (reg_desc r) (reg_action r) (reg_provision r) b.

Definition register_all (rs : list Registration) (b : Bot) : Bot :=
  fold_left register rs b.

(** * Definitions used by the statements *)

(** What [_logRoleChangeFromAuth] leaves in the event log. *)
Definition audit_trail (P : Platform) (b : Bot)
    (member : option GuildMember) (action result : string) : list Event :=
  match _logChannel b with
  | None => [EvLog LError "ROLE_CHANGE_LOG_FAILED"]
  | Some _ =>
      match rolesUpdatedLogMessage_err P member action result with
      | Some _ => [EvLog LError "ROLE_CHANGE_LOG_FAILED"]
      | None => [EvAudit (user_id <$> (user <$> member)) action result]
      end
  end.

(** The member as the cache holds it after a platform call changed its
    roles with [f]. *)
Definition with_roles (f : list Role -> list Role) (m : GuildMember)
    : GuildMember :=
  {| user := user m; roles := f (roles m) |}.

Definition provisioning_failure (e : string) : Event :=
  EvLog LError ("AUTH_PROVISIONING_FAILURE: " +:+ e).

Definition revoke_failure (e : string) : Event :=
  EvLog LError ("AUTH_REVOKE_FAILURE: " +:+ e).

(** The part of [held] that is @everyone in guild [g]. *)
Definition everyone_held (g : Guild) (held : list Role) : list Role :=
  List.filter (fun r => String.eqb (role_id r) (guild_id g)) held.

(** The roles a revoke payload asks to remove from member [m]. *)
Definition rolesToRevoke (g : Guild) (m : GuildMember)
    (names : option (list string)) : list Role :=
  match names with
  | Some l => resolve_roles g l
  | None => roles m
  end.

(** The payload [revoke_step] hands to [_revokeUserRoles]. *)
Definition revoke_payload (names : list string) : option (list string) :=
  if (length names =? 1)%nat && String.eqb (hd "" names) ALL
  then None else Some names.

(** Role names member [id] holds in the guild cache of [b]. *)
Definition held_names (b : Bot) (id : string) : option (list string) :=
  g ← _guild b; m ← find_member g id; Some (map role_name (roles m)).

(** Two lists of names denote the same set. *)
Definition same_names (l1 l2 : list string) : Prop :=
  forall x, In x l1 <-> In x l2.

(** Events the assignment phase can emit. *)
Definition assignment_event (ev : Event) : Prop :=
  match ev with
  | EvAddRoles _ _ _ => True
  | EvAudit _ action _ => action = "AUTH_PROVISIONING"
  | EvLog LError _ => True
  | _ => False
  end.

(** What [_logCommandUse] leaves in the event log. *)
Definition use_trail (P : Platform) (b : Bot) (msg : Message)
    (output : string) : list Event :=
  match _logChannel b with
  | None => [EvLog LError "COMMAND_USE_LOG_FAILED"]
  | Some _ =>
      match commandUseLogMessage_err P msg output with
      | Some _ => [EvLog LError "COMMAND_USE_LOG_FAILED"]
      | None => [EvCommandUse msg output]
      end
  end.

(** [msg.guild || this._guild] *)
Definition guild_arg (b : Bot) (msg : Message) : option Guild :=
  match guild msg with
  | Some g => Some g
  | None => _guild b
  end.

Definition cmd_line (msg : Message) (output : string) : string :=
  "(" +:+ origin_of msg +:+ ")(" +:+ username (author msg) +:+ " - "
  +:+ cmd_of msg +:+ ") - " +:+ output.

Definition command_error_line (msg : Message) (e : string) : string :=
  "COMMAND (" +:+ origin_of msg +:+ ")(" +:+ username (author msg)
  +:+ " - " +:+ cmd_of msg +:+ ") : " +:+ e.

Definition notice (msg : Message) : string :=
  "Sorry, I wasn't taught how to handle `" +:+ cmd_of msg +:+ "`. 🙁".

Definition no_command_line (msg : Message) : string :=
  "NO_COMMAND (" +:+ username (author msg) +:+ ") - " +:+ cmd_of msg.

(** The exit test that closes the [try] block of a found command. *)
Definition exit_trail (msg : Message) (output : string) : list Event :=
  if String.eqb (cmd_of msg) "!shutdown" && String.eqb output SHUTDOWN_OK
  then [EvExit 0] else [].

(** The deletion that opens the [try] block of a found command. *)
Definition delete_trail (msg : Message) : list Event :=
  match guild msg with
  | Some _ => [EvDelete msg None]
  | None => []
  end.

(** The bot as the dispatcher leaves it after counting a request. *)
Definition counted (b : Bot) : Bot :=
  set_REQUEST_COUNT (S (REQUEST_COUNT b)) b.

(** A message the dispatcher treats as a command. *)
Definition is_command (msg : Message) : bool :=
  negb (bot (author msg)) && JS.startsWith "!" (cmd_of msg).

(** Events that are neither a handler invocation nor an exit. *)
Definition quiet (ev : Event) : Prop :=
  match ev with
  | EvInvoke _ _ _ _ | EvExit _ => False
  | _ => True
  end.

(** The deletion that precedes the handler did not fail. *)
Definition delete_passed (P : Platform) (msg : Message) : Prop :=
  guild msg = None \/ delete_err P msg = None.

(** The handler a registration stores: the action itself, or the action
    wrapped by the access decorator when one is given. *)
Definition installed (r : Registration) : BotAction :=
  match reg_provision r with
  | Some p => provision_wrap p (reg_action r)
  | None => reg_action r
  end.

(** ** Concrete guilds, platforms and messages *)
Module Fixtures.

Definition rA : Role := {| role_id := "1"; role_name := "A" |}.
Definition rB : Role := {| role_id := "2"; role_name := "B" |}.
Definition rC : Role := {| role_id := "3"; role_name := "C" |}.

Definition alice : User :=
  {| user_id := "u1"; username := "alice"; bot := false |}.

(** One member, [u1], holding role C; the catalog has A, B and C. *)
Definition guild1 : Guild :=
  {| guild_id := "g1";
     members := [ {| user := alice; roles := [rC] |} ];
     guild_roles := [rA; rB; rC] |}.

(** A bot whose client is ready, with an empty registry. *)
Definition ready : Bot :=
  {| REQUEST_COUNT := 0; _guild := Some guild1; _logChannel := Some "log";
     _descriptions := ∅; _commands := ∅ |}.

(** Every platform request resolves and no embed builder throws. *)
Definition calm : Platform :=
  {| delete_err := fun _ => None;
     send_err := fun _ _ => None;
     addRoles_err := fun _ _ => None;
     removeRoles_err := fun _ _ => None;
     rolesUpdatedLogMessage_err := fun _ _ _ => None;
     commandUseLogMessage_err := fun _ _ => None |}.

(** The platform refuses every role change and every deletion. *)
Definition refusing : Platform :=
  {| delete_err := fun _ => Some "Missing Access";
     send_err := fun _ _ => None;
     addRoles_err := fun _ _ => Some "Missing Permissions";
     removeRoles_err := fun _ _ => Some "Missing Permissions";
     rolesUpdatedLogMessage_err := fun _ _ _ => None;
     commandUseLogMessage_err := fun _ _ => None |}.

Definition in_guild (text : string) : Message :=
  {| author := alice; content := text; guild := Some guild1 |}.

Definition in_private (text : string) : Message :=
  {| author := alice; content := text; guild := None |}.

End Fixtures.

(** A guild as the platform serves it, with the role @everyone, whose id
    is the guild's id, held by every member. *)
Module Community.

Definition everyone : Role := {| role_id := "g2"; role_name := "@everyone" |}.

Definition guild2 : Guild :=
  {| guild_id := "g2";
     members :=
       [ {| user := Fixtures.alice; roles := [everyone; Fixtures.rC] |} ];
     guild_roles := [everyone; Fixtures.rA; Fixtures.rB; Fixtures.rC] |}.

Definition ready : Bot :=
  {| REQUEST_COUNT := 0; _guild := Some guild2; _logChannel := Some "log";
     _descriptions := ∅; _commands := ∅ |}.

(** The platform rejects every role assignment and accepts everything
    else. *)
Definition no_assignment : Platform :=
  {| delete_err := fun _ => None;
     send_err := fun _ _ => None;
     addRoles_err := fun _ _ => Some "Missing Permissions";
     removeRoles_err := fun _ _ => None;
     rolesUpdatedLogMessage_err := fun _ _ _ => None;
     commandUseLogMessage_err := fun _ _ => None |}.

(** No request is rejected, but the audit embed cannot be built. *)
Definition no_embed : Platform :=
  {| delete_err := fun _ => None;
     send_err := fun _ _ => None;
     addRoles_err := fun _ _ => None;
     removeRoles_err := fun _ _ => None;
     rolesUpdatedLogMessage_err := fun _ _ _ => Some "embed";
     commandUseLogMessage_err := fun _ _ => None |}.

End Community.

(** * Further parts of the repository *)

(** [s.includes(c)] for one character. *)
Fixpoint has_char (c : ascii) (s : string) : bool :=
  match s with
  | EmptyString => false
  | String d rest => Ascii.eqb d c || has_char c rest
  end.

(** The member with id [id] as the guild cache of [b] holds it. *)
Definition cached_member (b : Bot) (id : string) : option GuildMember :=
  g ← _guild b; find_member g id.

(** [b'] differs from [b] at most in the roles of member [id]: every
    other member, the list of members, the role catalog, the registry,
    the counter and the log channel are the same. *)
Definition same_except (id : string) (b b' : Bot) : Prop :=
  (forall id', id' <> id -> cached_member b' id' = cached_member b id') /\
  (user <$> cached_member b' id) = (user <$> cached_member b id) /\
  (map user <$> (members <$> _guild b'))
  = (map user <$> (members <$> _guild b)) /\
  (guild_roles <$> _guild b') = (guild_roles <$> _guild b) /\
  _commands b' = _commands b /\
  _descriptions b' = _descriptions b /\
  REQUEST_COUNT b' = REQUEST_COUNT b /\
  _logChannel b' = _logChannel b.

(** ** Audit of deleted messages (bot.ts) *)

(** What the [messageDelete] handler sends to the log channel. *)
Inductive ChannelEvent :=
| ChLogError (text : string)
| ChMessageDeleted (timestamp : string) (message : Message).

(** [_logMessageDelete(message)]: [timestamp] is the clock reading
    [new Date().toUTCString()], [builder_err] tells whether
    [messageDeletedLogMessage] of lib/messages throws. *)
Definition _logMessageDelete (timestamp : string)
    (builder_err : string -> Message -> option string)
    (message : Message) (b : Bot) : list ChannelEvent :=
  if JS.startsWith "!" (content message) then []
  else
    match _logChannel b with
    | None => [ChLogError "MESSAGE_DELETE_LOG_FAILED"]
    | Some _ =>
        match builder_err timestamp message with
        | Some _ => [ChLogError "MESSAGE_DELETE_LOG_FAILED"]
        | None => [ChMessageDeleted timestamp message]
        end
    end.

(** ** The calendar event store (lib/state) *)
Module EventStore.

Record CalendarEvent := {
  guid : string;
  title : string;
  date : Z;
  link : string;
  img : string;
  group : string;
  reminders : gmap string bool
}.

(** [has(id)] *)
Definition has (id : string) (_events : gmap string CalendarEvent) : bool :=
  bool_decide (is_Some (_events !! id)).

(** [add(id, e)] *)
Definition add (id : string) (e : CalendarEvent)
    (_events : gmap string CalendarEvent) : gmap string CalendarEvent :=
  if negb (has id _events) then <[id := e]> _events else _events.

(** A run of [add] calls, in order. *)
Definition add_all (l : list (string * CalendarEvent))
    (_events : gmap string CalendarEvent) : gmap string CalendarEvent :=
  fold_left (fun s p => add (fst p) (snd p) s) l _events.

End EventStore.

(** ** The calendar feed reader *)
Module CalendarFeed.

(** The fields of a [FeedParser.Item] the reader uses. *)
Record Item := {
  item_guid : string;
  item_title : string;
  item_date : option Z;
  item_link : string;
  item_summary : string
}.

Record CalendarEvent := {
  guid : string;
  title : string;
  date : option Z;
  link : string;
  img : string
}.

(** The reader: its cache and the items the parser holds ready, which
    [this._feed.read()] hands out one by one and then answers [null]. *)
Record Feed := {
  _eventsCache : list CalendarEvent;
  readable : list Item
}.

Section WithFindImage.

(** [_findImage(html)]: the regular expression search for the header
    image, [None] for [null]. *)
Variable _findImage : string -> option string.

(** [this._findImage(e.summary) || ''] *)
Definition imgUrl (e : Item) : string :=
  match _findImage (item_summary e) with
  | Some (String c u) => String c u
  | _ => ""
  end.

(** The object pushed for one item. *)
Definition event_of (e : Item) : CalendarEvent :=
  {| guid := item_guid e; title := item_title e; date := item_date e;
     link := item_link e; img := imgUrl e |}.

(** [_onFeedReadable()] *)
Definition _onFeedReadable (f : Feed) : Feed :=
  let events := map event_of (readable f) in
  {| _eventsCache :=
       if (0 <? length events)%nat then events else _eventsCache f;
     readable := [] |}.

(** [getEvents()] *)
Definition getEvents (f : Feed) : list CalendarEvent := _eventsCache f.

(** The parser announces the batches [batches] one after the other. *)
Definition feed_all (batches : list (list Item)) (f : Feed) : Feed :=
  fold_left
    (fun f items =>
       _onFeedReadable {| _eventsCache := _eventsCache f;
                          readable := readable f ++ items |})
    batches f.

End WithFindImage.

End CalendarFeed.

(** ** Mission search (lib/commands/missions.ts) *)
Module Missions.

Record MissionCategory := {
  category_id : Z;
  category_name : string;
  category_url : string
}.

Record MissionAuthor := {
  author_id : Z;
  author_name : string;
  author_email : string
}.

Record ArmAMission := {
  id : Z;
  title : string;
  category : MissionCategory;
  fields : gmap string string;
  author : MissionAuthor;
  date : string;
  description : string;
  comments : Z;
  reviews : Z;
  views : Z;
  url : string;
  rating : Z
}.

(** [MissionField.FileName] *)
Definition FileName : string := "field_48".

Section WithLowerCase.

(** [String.prototype.toLowerCase] *)
Variable toLowerCase : string -> string.

(** [isMatch(testName, fileName)] *)
Definition isMatch (testName fileName : list string) : bool :=
  let fileNameLower := map toLowerCase fileName in
  forallb
    (fun str => existsb (String.eqb (toLowerCase str)) fileNameLower)
    testName.

(** The [.filter(n => isMatch(args, n.split('_')))] pass over the mapped
    field values; [n.split] throws on a mission without the field. *)
Fixpoint filter_names (args : list string) (names : list (option string))
    : Result (list string) :=
  match names with
  | [] => Ok []
  | None :: _ => Throw (JS.TypeError_read "split" "undefined")
  | Some n :: rest =>
      match filter_names args rest with
      | Ok kept =>
          Ok (if isMatch args (JS.split "_" n) then n :: kept else kept)
      | Throw e => Throw e
      end
  end.

(** [matchesByName] of [missions], from the fetched mission list; the
    code computes it only past the guard on the argument count. *)
Definition matchesByName (args : list string)
    (liveMissionList : list ArmAMission) : Result (list string) :=
  filter_names args
    (map (fun mission => fields mission !! FileName) liveMissionList).

(** The search of [missions(_guild, msg, args)]: with [args.length < 1]
    the command answers INVALID_ARGS and neither fetches nor filters,
    which is [None]; otherwise [liveMissionList] is what the fetch gave
    and the outcome is [matchesByName]. *)
Definition search (args : list string)
    (liveMissionList : list ArmAMission) : option (Result (list string)) :=
  if (length args <? 1)%nat then None
  else Some (matchesByName args liveMissionList).

End WithLowerCase.

(** Lower case of the letters A to Z, every other byte as it is. *)
Definition ascii_lower (c : ascii) : ascii :=
  let n := nat_of_ascii c in
  if (65 <=? n)%nat && (n <=? 90)%nat then ascii_of_nat (n + 32) else c.

Fixpoint lower (s : string) : string :=
  match s with
  | EmptyString => EmptyString
  | String c rest => String (ascii_lower c) (lower rest)
  end.

End Missions.

(** * Properties *)

(** ** Tokenizing a message *)

Example split_keeps_empty_tokens :
  JS.split " " "!ratio 10  2" = ["!ratio"; "10"; ""; "2"].
Proof. reflexivity. Qed.

Example split_of_empty : JS.split " " "" = [""].
Proof. reflexivity. Qed.

Example cmd_and_args :
  cmd_of (Fixtures.in_private "!join_group pilots")  = "!join_group" /\
  args_of (Fixtures.in_private "!join_group pilots") = ["pilots"] /\
  JS.slice1 "!join_group" = "join_group".
Proof. repeat split. Qed.

Lemma split_nonempty sep s : JS.split sep s <> [].
Proof.
  destruct s as [|c s]; cbn [JS.split]; [discriminate|].
  destruct (Ascii.eqb c sep); [discriminate|].
  destruct (JS.split sep s); discriminate.
Qed.

(** ** Collections *)

Lemma find_member_id g id m :
  find_member g id = Some m -> user_id (user m) = id.
Proof.
  unfold find_member. intros H. apply find_some in H as [_ H].
  now apply String.eqb_eq.
Qed.

Lemma find_member_update g id f m :
  find_member g id = Some m ->
  find_member (update_member id f g) id
  = Some {| user := user m; roles := f (roles m) |}.
Proof.
  unfold find_member, update_member. cbn [members].
  induction (members g) as [|x xs IH]; cbn [find map]; [discriminate|].
  destruct (String.eqb (user_id (user x)) id) eqn:E.
  - intros [= ->]. cbn [user user_id]. now rewrite E.
  - rewrite E. exact IH.
Qed.

Lemma has_role_In rs r : In r rs -> has_role rs r = true.
Proof.
  intros H. unfold has_role. apply existsb_exists.
  exists r. split; [exact H | apply String.eqb_refl].
Qed.

Lemma roles_removed_subset g held rs :
  (forall r, In r held -> In r rs) ->
  roles_removed (guild_id g) held rs = everyone_held g held.
Proof.
  unfold roles_removed, everyone_held.
  induction held as [|r held IH]; intros H; [reflexivity|].
  cbn [List.filter].
  rewrite has_role_In by (apply H; now left). cbn [negb].
  rewrite orb_false_r, IH by (intros r' Hr'; apply H; now right).
  reflexivity.
Qed.

Lemma roles_removed_self g held :
  roles_removed (guild_id g) held held = everyone_held g held.
Proof. now apply roles_removed_subset. Qed.

Lemma everyone_held_In g held r :
  In r (everyone_held g held) <-> In r held /\ role_id r = guild_id g.
Proof.
  unfold everyone_held. rewrite filter_In. now rewrite String.eqb_eq.
Qed.

(** ** Equations of the effectful operations *)

(** Unfolds the monad down to pairs and matches. *)
Ltac run_m :=
  cbv beta iota zeta delta
    [bind ret throw try_catch emit get_bot modify log_error log_cmd
     the_guild live addRoles removeRoles msg_delete author_send invoke
     process_exit and_await result_of bot_of events_of fst snd];
  cbn [app _guild _logChannel REQUEST_COUNT _commands _descriptions
       set_guild set_REQUEST_COUNT fmap option_fmap option_map mbind
       option_bind].

Lemma _logRoleChangeFromAuth_eq P member action result b :
  _logRoleChangeFromAuth P member action result b
  = (Ok tt, b, audit_trail P b member action result).
Proof.
  unfold _logRoleChangeFromAuth, audit_trail. run_m.
  destruct (_logChannel b); [|reflexivity].
  now destruct (rolesUpdatedLogMessage_err P member action result).
Qed.

Lemma audit_trail_guild P g b member action result :
  audit_trail P (set_guild g b) member action result
  = audit_trail P b member action result.
Proof. reflexivity. Qed.

Lemma assign_body_eq P id names b :
  assign_body P id names b =
  match _guild b with
  | None => (Throw (JS.TypeError_read "members" "undefined"), b, [])
  | Some g =>
      match find_member g id with
      | None =>
          (Ok true, b,
           audit_trail P b None "AUTH_PROVISIONING" (JS.join ", " names))
      | Some m =>
          let rs := resolve_roles g names in
          match addRoles_err P m rs with
          | Some e => (Throw e, b, [EvAddRoles id rs (Some e)])
          | None =>
              (Ok true,
               set_guild
                 (Some (update_member id (fun h => roles_added h rs) g)) b,
               EvAddRoles id rs None
               :: audit_trail P b
                    (Some (with_roles (fun h => roles_added h rs) m))
                    "AUTH_PROVISIONING" (JS.join ", " names))
          end
      end
  end.
Proof.
  unfold assign_body. run_m.
  destruct (_guild b) as [g|] eqn:Hg; [|reflexivity].
  destruct (find_member g id) as [m|] eqn:Hm.
  - pose proof (find_member_id _ _ _ Hm) as Hid.
    cbv zeta. destruct (addRoles_err P m (resolve_roles g names)) as [e|];
      run_m; rewrite Hid; [reflexivity|].
    rewrite Hg. run_m.
    rewrite (find_member_update _ _ _ _ Hm).
    rewrite _logRoleChangeFromAuth_eq, audit_trail_guild.
    now rewrite app_nil_r.
  - run_m. rewrite _logRoleChangeFromAuth_eq. now rewrite app_nil_r.
Qed.

Lemma _assignUserRoles_eq P id names b :
  _assignUserRoles P id names b =
  match assign_body P id names b with
  | (Ok ok, b1, t) => (Ok ok, b1, t)
  | (Throw e, b1, t) => (Ok false, b1, t ++ [provisioning_failure e])
  end.
Proof.
  unfold _assignUserRoles, provisioning_failure. run_m.
  now destruct (assign_body P id names b) as [[[ok|e] b1] t].
Qed.

Lemma revoke_body_eq P id names b :
  revoke_body P id names b =
  match _guild b with
  | None => (Throw (JS.TypeError_read "members" "undefined"), b, [])
  | Some g =>
      match find_member g id with
      | None =>
          (Throw (JS.TypeError_read
                    (match names with
                     | Some _ => "user"
                     | None => "roles"
                     end) "null"), b, [])
      | Some m =>
          let rs := rolesToRevoke g m names in
          match removeRoles_err P m rs with
          | Some e => (Throw e, b, [EvRemoveRoles id rs (Some e)])
          | None =>
              (Ok true,
               set_guild
                 (Some (update_member id
                          (fun h => roles_removed (guild_id g) h rs) g)) b,
               EvRemoveRoles id rs None
               :: audit_trail P b
                    (Some (with_roles
                             (fun h => roles_removed (guild_id g) h rs) m))
                    "AUTH_REVOKE" (username (user m) +:+ " roles revoked"))
          end
      end
  end.
Proof.
  unfold revoke_body. run_m.
  destruct (_guild b) as [g|] eqn:Hg; [|reflexivity].
  destruct (find_member g id) as [m|] eqn:Hm.
  - pose proof (find_member_id _ _ _ Hm) as Hid.
    destruct names as [l|]; cbn [rolesToRevoke]; cbv zeta; run_m.
    all: match goal with
         | |- context [removeRoles_err ?p ?x ?rs] =>
             destruct (removeRoles_err p x rs) as [e|]
         end; run_m; rewrite Hid; [reflexivity|].
    all: rewrite Hg; run_m; rewrite (find_member_update _ _ _ _ Hm).
    all: rewrite _logRoleChangeFromAuth_eq, audit_trail_guild.
    all: now rewrite app_nil_r.
  - destruct names; run_m; reflexivity.
Qed.

Lemma _revokeUserRoles_eq P id names b :
  _revokeUserRoles P id names b =
  match revoke_body P id names b with
  | (Ok ok, b1, t) => (Ok ok, b1, t)
  | (Throw e, b1, t) => (Ok false, b1, t ++ [revoke_failure e])
  end.
Proof.
  unfold _revokeUserRoles, revoke_failure. run_m.
  now destruct (revoke_body P id names b) as [[[ok|e] b1] t].
Qed.

(** ** The two phases of [provisionUserRoles] never throw *)

Lemma _assignUserRoles_total P id names b :
  exists ok, result_of (_assignUserRoles P id names b) = Ok ok.
Proof.
  rewrite _assignUserRoles_eq.
  destruct (assign_body P id names b) as [[[ok|e] b1] t]; eauto.
Qed.

Lemma _revokeUserRoles_total P id names b :
  exists ok, result_of (_revokeUserRoles P id names b) = Ok ok.
Proof.
  rewrite _revokeUserRoles_eq.
  destruct (revoke_body P id names b) as [[[ok|e] b1] t]; eauto.
Qed.

Lemma assign_step_total P id assign success b :
  exists ok, result_of (assign_step P id assign success b) = Ok ok.
Proof.
  unfold assign_step, and_await.
  destruct (nonempty assign); [destruct success|]; eauto.
  apply _assignUserRoles_total.
Qed.

Lemma revoke_step_total P id revoke success b :
  exists ok, result_of (revoke_step P id revoke success b) = Ok ok.
Proof.
  unfold revoke_step, and_await.
  destruct (nonempty revoke) as [names|]; eauto.
  destruct (_ && _), success; eauto using _revokeUserRoles_total.
Qed.

Lemma revoke_step_eq P id revoke success b :
  revoke_step P id revoke success b =
  match nonempty revoke with
  | Some names =>
      if success then _revokeUserRoles P id (revoke_payload names) b
      else (Ok false, b, [])
  | None => (Ok success, b, [])
  end.
Proof.
  unfold revoke_step, revoke_payload, and_await.
  destruct (nonempty revoke) as [names|]; [|reflexivity].
  now destruct (_ && _), success.
Qed.

Lemma assign_step_eq P id assign b :
  assign_step P id assign true b =
  match nonempty assign with
  | Some names => _assignUserRoles P id names b
  | None => (Ok true, b, [])
  end.
Proof. unfold assign_step. now destruct (nonempty assign). Qed.

(** [provisionUserRoles] is its two steps in sequence; the outer
    [catch] is never entered. *)
Lemma provisionUserRoles_eq P id assign revoke b :
  exists s1 b1 t1 s2 b2 t2,
    assign_step P id assign true b = (Ok s1, b1, t1) /\
    revoke_step P id revoke s1 b1 = (Ok s2, b2, t2) /\
    provisionUserRoles P id assign revoke b = (Ok s2, b2, t1 ++ t2).
Proof.
  destruct (assign_step_total P id assign true b) as [s1 H1].
  destruct (assign_step P id assign true b) as [[r1 b1] t1] eqn:E1.
  cbn in H1; subst r1.
  destruct (revoke_step_total P id revoke s1 b1) as [s2 H2].
  destruct (revoke_step P id revoke s1 b1) as [[r2 b2] t2] eqn:E2.
  cbn in H2; subst r2.
  exists s1, b1, t1, s2, b2, t2. split; [reflexivity|]. split; [exact E2|].
  unfold provisionUserRoles. run_m. rewrite E1, E2.
  now rewrite app_nil_r.
Qed.

Lemma audit_trail_assignment P b member result :
  Forall assignment_event
    (audit_trail P b member "AUTH_PROVISIONING" result).
Proof.
  unfold audit_trail. destruct (_logChannel b); [|repeat constructor].
  destruct (rolesUpdatedLogMessage_err _ _ _ _); repeat constructor.
Qed.

Lemma _assignUserRoles_events P id names b :
  Forall assignment_event (events_of (_assignUserRoles P id names b)).
Proof.
  rewrite _assignUserRoles_eq, assign_body_eq.
  destruct (_guild b) as [g|]; [|repeat constructor].
  destruct (find_member g id) as [m|]; cbv zeta.
  - destruct (addRoles_err P m _); cbn [events_of snd app].
    + repeat constructor.
    + constructor; [exact I | apply audit_trail_assignment].
  - apply audit_trail_assignment.
Qed.

(** ** C10: a failed assignment phase suppresses the revocation phase *)

(** C10. With a non-empty assign list and a non-empty revoke list, when
    the assignment phase returns failure, [provisionUserRoles] returns
    false and does nothing beyond what the assignment phase did: no
    role-removal request is issued and no AUTH_REVOKE audit entry is
    emitted. *)
Theorem failed_assignment_skips_revocation
    P id assign revoke names rnames b :
  nonempty assign = Some names ->
  nonempty revoke = Some rnames ->
  result_of (_assignUserRoles P id names b) = Ok false ->
  let run := provisionUserRoles P id assign revoke b in
  result_of run = Ok false /\
  bot_of run = bot_of (_assignUserRoles P id names b) /\
  events_of run = events_of (_assignUserRoles P id names b) /\
  (forall member rs err, ~ In (EvRemoveRoles member rs err) (events_of run)) /\
  (forall actor result,
      ~ In (EvAudit actor "AUTH_REVOKE" result) (events_of run)).
Proof.
  intros Ha Hr Hfail run.
  destruct (provisionUserRoles_eq P id assign revoke b)
    as (s1 & b1 & t1 & s2 & b2 & t2 & E1 & E2 & E).
  rewrite assign_step_eq, Ha in E1.
  rewrite revoke_step_eq, Hr in E2.
  rewrite E1 in Hfail. cbn in Hfail. injection Hfail as ->.
  injection E2 as <- <- <-.
  assert (Hev : events_of run = events_of (_assignUserRoles P id names b)).
  { subst run. rewrite E, E1. cbn. apply app_nil_r. }
  pose proof (_assignUserRoles_events P id names b) as Hall.
  rewrite <- Hev in Hall. rewrite List.Forall_forall in Hall.
  repeat split.
  - subst run. now rewrite E.
  - subst run. now rewrite E, E1.
  - exact Hev.
  - intros member rs err Hin. exact (Hall _ Hin).
  - intros actor result Hin. specialize (Hall _ Hin). discriminate Hall.
Qed.

Lemma failed_assignment_skips_revocation_witness :
  let run :=
    provisionUserRoles Fixtures.refusing "u1" (Some ["A"]) (Some ["C"])
      Fixtures.ready in
  result_of run = Ok false /\
  (forall member rs err, ~ In (EvRemoveRoles member rs err) (events_of run)).
Proof.
  pose proof (failed_assignment_skips_revocation Fixtures.refusing "u1"
                (Some ["A"]) (Some ["C"]) ["A"] ["C"] Fixtures.ready
                eq_refl eq_refl eq_refl) as H.
  split; [apply H | apply H].
Defined.

(** ** C3: errors of either phase are absorbed and logged *)






(** An audit entry that cannot be built does not fail the call: both
    phases succeed and each leaves ROLE_CHANGE_LOG_FAILED. *)
Example audit_errors_do_not_fail_the_call :
  provisionUserRoles Community.no_embed "u1" (Some ["A"]) (Some ["C"])
    Fixtures.ready
  = (Ok true,
     bot_of (provisionUserRoles Fixtures.calm "u1" (Some ["A"]) (Some ["C"])
               Fixtures.ready),
     [EvAddRoles "u1" [Fixtures.rA] None;
      EvLog LError "ROLE_CHANGE_LOG_FAILED";
      EvRemoveRoles "u1" [Fixtures.rC] None;
      EvLog LError "ROLE_CHANGE_LOG_FAILED"]).
Proof. reflexivity. Qed.


(** ** Revocation: the two payload shapes *)

Lemma held_names_update b g id f m :
  find_member g id = Some m ->
  held_names (set_guild (Some (update_member id f g)) b) id
  = Some (map role_name (f (roles m))).
Proof.
  intros Hm. unfold held_names. cbn [_guild set_guild mbind option_bind].
  now rewrite (find_member_update _ _ _ _ Hm).
Qed.

(** A payload without [roles], on a member that exists, when the platform
    accepts the request: every role held is named, and every role but
    @everyone is removed. *)
Lemma _revokeUserRoles_all P id b g m :
  _guild b = Some g ->
  find_member g id = Some m ->
  removeRoles_err P m (roles m) = None ->
  let run := _revokeUserRoles P id None b in
  result_of run = Ok true /\
  events_of run
  = EvRemoveRoles id (roles m) None
    :: audit_trail P b (Some (with_roles (everyone_held g) m)) "AUTH_REVOKE"
         (username (user m) +:+ " roles revoked") /\
  cached_member (bot_of run) id = Some (with_roles (everyone_held g) m).
Proof.
  intros Hg Hm Hok run. subst run.
  rewrite _revokeUserRoles_eq, revoke_body_eq, Hg, Hm.
  cbn [rolesToRevoke]. cbv zeta. rewrite Hok.
  cbn [result_of bot_of events_of fst snd].
  split; [reflexivity|]. split.
  - unfold with_roles. now rewrite roles_removed_self.
  - unfold cached_member. cbn [_guild set_guild mbind option_bind].
    rewrite (find_member_update _ _ _ _ Hm). unfold with_roles.
    now rewrite roles_removed_self.
Qed.

(** No member has the id: the revocation handler fails on the [null]
    member, whatever the payload, and emits no audit entry. *)
Lemma _revokeUserRoles_absent P id names b g :
  _guild b = Some g ->
  find_member g id = None ->
  _revokeUserRoles P id names b
  = (Ok false, b,
     [revoke_failure
        (JS.TypeError_read
           (match names with Some _ => "user" | None => "roles" end)
           "null")]).
Proof.
  intros Hg Hm. now rewrite _revokeUserRoles_eq, revoke_body_eq, Hg, Hm.
Qed.

(** The sibling handler on the same input: success and an audit attempt. *)
Lemma _assignUserRoles_absent P id names b g :
  _guild b = Some g ->
  find_member g id = None ->
  _assignUserRoles P id names b
  = (Ok true, b,
     audit_trail P b None "AUTH_PROVISIONING" (JS.join ", " names)).
Proof.
  intros Hg Hm. now rewrite _assignUserRoles_eq, assign_body_eq, Hg, Hm.
Qed.

(** ** C9: the "all" payload names every role held *)

(** C9 (as the code has it).  In a Provision call whose revoke list is
    the single value [ALL], once the revocation phase is reached
    (nothing to assign, or the assignment phase returned success) for a
    member that exists, the role-removal request names exactly the roles
    the member holds at that moment; when the platform accepts it, the
    member is left with @everyone, the role with the guild's id, and
    nothing else. *)
Theorem revoke_all_requests_every_held_role P id assign b g1 m1 :
  let after := assign_step P id assign true b in
  result_of after = Ok true ->
  _guild (bot_of after) = Some g1 ->
  find_member g1 id = Some m1 ->
  removeRoles_err P m1 (roles m1) = None ->
  let run := provisionUserRoles P id assign (Some [ALL]) b in
  result_of run = Ok true /\
  In (EvRemoveRoles id (roles m1) None) (events_of run) /\
  cached_member (bot_of run) id = Some (with_roles (everyone_held g1) m1) /\
  (forall r, In r (everyone_held g1 (roles m1)) <->
             In r (roles m1) /\ role_id r = guild_id g1).
Proof.
  intros after Hs Hg Hm Hok run.
  destruct (provisionUserRoles_eq P id assign (Some [ALL]) b)
    as (s1 & b1 & t1 & s2 & b2 & t2 & E1 & E2 & E).
  subst after run. rewrite E1 in Hs, Hg.
  cbn [result_of bot_of fst snd] in Hs, Hg. injection Hs as ->.
  rewrite revoke_step_eq in E2. cbn [nonempty] in E2.
  change (revoke_payload [ALL]) with (@None (list string)) in E2.
  pose proof (_revokeUserRoles_all P id b1 g1 m1 Hg Hm Hok) as H.
  cbv zeta in H. rewrite E2 in H.
  cbn [result_of bot_of events_of fst snd] in H.
  destruct H as (Hr & He & Hh).
  rewrite E. cbn [result_of bot_of events_of fst snd].
  split; [exact Hr|]. split; [|split; [exact Hh|]].
  - apply in_or_app. right. rewrite He. now left.
  - intros r. apply everyone_held_In.
Qed.

Lemma revoke_all_requests_every_held_role_witness :
  let run :=
    provisionUserRoles Fixtures.calm "u1" None (Some [ALL]) Community.ready in
  result_of run = Ok true /\
  In (EvRemoveRoles "u1" [Community.everyone; Fixtures.rC] None)
    (events_of run) /\
  cached_member (bot_of run) "u1"
  = Some {| user := Fixtures.alice; roles := [Community.everyone] |}.
Proof.
  destruct (revoke_all_requests_every_held_role Fixtures.calm "u1" None
              Community.ready Community.guild2
              {| user := Fixtures.alice;
                 roles := [Community.everyone; Fixtures.rC] |}
              eq_refl eq_refl eq_refl eq_refl) as (Hr & He & Hh & _).
  split; [exact Hr|]. split; [exact He | exact Hh].
Defined.

(** C9 as stated fails.  When the platform rejects the assignment, the
    revocation phase is not started: no removal request is made and the
    member keeps role C.  And when the phase runs and the platform
    accepts the request, a member of a guild that has @everyone still
    holds @everyone afterwards. *)
Lemma revoke_all_does_not_always_strip :
  let skipped :=
    provisionUserRoles Community.no_assignment "u1" (Some ["A"])
      (Some [ALL]) Fixtures.ready in
  let accepted :=
    provisionUserRoles Fixtures.calm "u1" None (Some [ALL])
      Community.ready in
  (result_of skipped = Ok false /\
   held_names (bot_of skipped) "u1" = Some ["C"] /\
   events_of skipped
   = [EvAddRoles "u1" [Fixtures.rA] (Some "Missing Permissions");
      EvLog LError "AUTH_PROVISIONING_FAILURE: Missing Permissions"]) /\
  (result_of accepted = Ok true /\
   held_names Community.ready "u1" = Some ["@everyone"; "C"] /\
   held_names (bot_of accepted) "u1" = Some ["@everyone"]).
Proof. cbv zeta. repeat split; reflexivity. Qed.

(** ** C1: assignment runs first, revoke-all second *)

(** C1 (as the code has it).  For every role set member u1 holds before
    the call, when the platform accepts both requests, Provision with
    assign = [A, B] and the revoke list [ALL] first adds the resolved
    roles and then asks to remove every role the member holds by then, A
    and B included: the member ends with @everyone, the role with the
    guild's id, and nothing else. *)
Theorem provision_assign_then_revoke_all_leaves_only_everyone P b g m :
  _guild b = Some g ->
  find_member g "u1" = Some m ->
  (forall m' rs, addRoles_err P m' rs = None) ->
  (forall m' rs, removeRoles_err P m' rs = None) ->
  let run := provisionUserRoles P "u1" (Some ["A"; "B"]) (Some [ALL]) b in
  let added := resolve_roles g ["A"; "B"] in
  let held := roles_added (roles m) added in
  result_of run = Ok true /\
  cached_member (bot_of run) "u1"
  = Some (with_roles (fun _ => everyone_held g held) m) /\
  (forall r, In r (everyone_held g held) <->
             In r held /\ role_id r = guild_id g) /\
  exists t1 t2,
    events_of run
    = EvAddRoles "u1" added None :: t1
      ++ EvRemoveRoles "u1" held None :: t2.
Proof.
  intros Hg Hm Hadd Hrem run added held.
  destruct (provisionUserRoles_eq P "u1" (Some ["A"; "B"]) (Some [ALL]) b)
    as (s1 & b1 & t1 & s2 & b2 & t2 & E1 & E2 & E).
  rewrite assign_step_eq in E1. cbn [nonempty] in E1.
  rewrite _assignUserRoles_eq, assign_body_eq, Hg, Hm in E1.
  cbv zeta in E1. rewrite Hadd in E1. injection E1 as Hs Hb Ht.
  subst s1. fold added in Hb, Ht.
  set (f := fun h : list Role => roles_added h added) in *.
  assert (Hg1 : _guild b1 = Some (update_member "u1" f g))
    by now rewrite <- Hb.
  rewrite revoke_step_eq in E2. cbn [nonempty] in E2.
  change (revoke_payload [ALL]) with (@None (list string)) in E2.
  pose proof (_revokeUserRoles_all P "u1" b1 _ _ Hg1
                (find_member_update _ _ f _ Hm) (Hrem _ _)) as H.
  cbv zeta in H. rewrite E2 in H.
  cbn [result_of bot_of events_of fst snd roles] in H.
  destruct H as (Hr & He & Hh).
  subst run. rewrite E. cbn [result_of bot_of events_of fst snd].
  split; [exact Hr|]. split; [exact Hh|]. split.
  - intros r. apply everyone_held_In.
  - rewrite He, <- Ht. eexists _, _. cbn [app]. reflexivity.
Qed.

Lemma provision_assign_then_revoke_all_leaves_only_everyone_witness :
  cached_member
    (bot_of (provisionUserRoles Fixtures.calm "u1" (Some ["A"; "B"])
               (Some [ALL]) Community.ready)) "u1"
  = Some {| user := Fixtures.alice; roles := [Community.everyone] |}.
Proof.
  exact (proj1 (proj2
    (provision_assign_then_revoke_all_leaves_only_everyone Fixtures.calm
       Community.ready Community.guild2
       {| user := Fixtures.alice;
          roles := [Community.everyone; Fixtures.rC] |}
       eq_refl eq_refl (fun _ _ => eq_refl) (fun _ _ => eq_refl)))).
Defined.

(** C1 as stated fails.  Member u1 holds C; A and B resolve; every
    platform request succeeds.  With the revoke list [ALL] the member ends
    with no role; with the literal name "all", which is not the value
    the code compares with and resolves to no role, nothing is removed and
    the member ends with C, A and B.  Neither is the set {A, B}. *)
Lemma provision_assign_then_revoke_all_not_A_B :
  let final revoke :=
    held_names
      (bot_of (provisionUserRoles Fixtures.calm "u1" (Some ["A"; "B"])
                 (Some [revoke]) Fixtures.ready)) "u1" in
  held_names Fixtures.ready "u1" = Some ["C"] /\
  final ALL = Some [] /\
  final "all" = Some ["C"; "A"; "B"] /\
  ~ same_names [] ["A"; "B"] /\
  ~ same_names ["C"; "A"; "B"] ["A"; "B"].
Proof.
  cbv zeta. repeat split; try reflexivity.
  - intros H. apply (proj2 (H "A")). now left.
  - intros H. destruct (proj1 (H "C")) as [E|[E|[]]];
      [now left | discriminate E | discriminate E].
Qed.

(** ** C2: a Provision call for an id no member has *)

(** C2 at its failing input.  No member has the id "ghost".  The
    assignment phase is a successful no-op that emits an audit entry, but
    the revocation phase throws on the [null] member inside its [try]
    block: it returns false, emits no AUTH_REVOKE audit entry, and the
    call as a whole answers false. *)
Theorem provision_absent_member_revoke_fails :
  let run revoke :=
    provisionUserRoles Fixtures.calm "ghost" (Some ["A"]) (Some [revoke])
      Fixtures.ready in
  find_member Fixtures.guild1 "ghost" = None /\
  _assignUserRoles Fixtures.calm "ghost" ["A"] Fixtures.ready
  = (Ok true, Fixtures.ready, [EvAudit None "AUTH_PROVISIONING" "A"]) /\
  run "C"
  = (Ok false, Fixtures.ready,
     [EvAudit None "AUTH_PROVISIONING" "A";
      EvLog LError
        "AUTH_REVOKE_FAILURE: Cannot read property 'user' of null"]) /\
  run ALL
  = (Ok false, Fixtures.ready,
     [EvAudit None "AUTH_PROVISIONING" "A";
      EvLog LError
        "AUTH_REVOKE_FAILURE: Cannot read property 'roles' of null"]).
Proof. cbv zeta. repeat split; reflexivity. Qed.

(** ** Equations of the dispatcher *)

Lemma _logCommandUse_eq P msg output b :
  _logCommandUse P msg output b = (Ok tt, b, use_trail P b msg output).
Proof.
  unfold _logCommandUse, use_trail. run_m.
  destruct (_logChannel b); [|reflexivity].
  now destruct (commandUseLogMessage_err P msg output).
Qed.

Lemma found_body_eq P fn msg b :
  found_body P fn msg b =
  match guild msg, delete_err P msg with
  | Some _, Some e => (Throw e, b, [EvDelete msg (Some e)])
  | _, _ =>
      let g := guild_arg b msg in
      match fn g msg (args_of msg) with
      | Throw e =>
          (Throw e, b,
           delete_trail msg ++ [EvInvoke g msg (args_of msg) (Throw e)])
      | Ok output =>
          (Ok tt, b,
           delete_trail msg
           ++ EvInvoke g msg (args_of msg) (Ok output)
              :: use_trail P b msg output
              ++ EvLog LCmd (cmd_line msg output) :: exit_trail msg output)
      end
  end.
Proof.
  unfold found_body, delete_trail, guild_arg, exit_trail, cmd_line,
    origin_of.
  destruct (guild msg) as [g|]; cbn [String.eqb Ascii.eqb Bool.eqb];
    run_m; [destruct (delete_err P msg) as [e|]; run_m; [reflexivity|]|].
  all: match goal with
       | |- context [EvInvoke ?g ?m ?a (?f ?g ?m ?a)] =>
           destruct (f g m a) as [output|e]
       end; [|reflexivity].
  all: rewrite _logCommandUse_eq; run_m.
  all: match goal with
       | |- context [if ?c then _ else _] => destruct c
       end; run_m.
  all: now rewrite ?app_nil_r, <- ?app_assoc.
Qed.

Lemma not_found_body_eq P msg b :
  not_found_body P msg b =
  match delete_err P msg with
  | Some e => (Throw e, b, [EvDelete msg (Some e)])
  | None =>
      match send_err P (author msg) (notice msg) with
      | Some e =>
          (Throw e, b,
           [EvDelete msg None; EvSend (author msg) (notice msg) (Some e)])
      | None =>
          (Ok tt, b,
           [EvDelete msg None; EvSend (author msg) (notice msg) None;
            EvLog LError (no_command_line msg)])
      end
  end.
Proof.
  unfold not_found_body, notice, no_command_line. run_m.
  destruct (delete_err P msg); run_m; [reflexivity|].
  now destruct (send_err P (author msg) _).
Qed.

Lemma _onMessage_eq P msg b :
  _onMessage P msg b =
  if is_command msg then
    match resolve b (JS.slice1 (cmd_of msg)) with
    | Some fn =>
        match found_body P fn msg (counted b) with
        | (Ok u, b2, t) => (Ok u, b2, t)
        | (Throw e, b2, t) =>
            (Ok tt, b2, t ++ [EvLog LError (command_error_line msg e)])
        end
    | None =>
        match not_found_body P msg (counted b) with
        | (Ok u, b2, t) => (Ok u, b2, t)
        | (Throw e, b2, t) => (Ok tt, b2, t ++ [EvLog LError "MESSAGE_DELETE"])
        end
    end
  else (Ok tt, b, []).
Proof.
  unfold _onMessage, is_command, resolve, counted, command_error_line.
  destruct (bot (author msg)); [reflexivity|]. cbn [negb andb].
  destruct (JS.startsWith "!" (cmd_of msg)); [|reflexivity]. run_m.
  destruct (_commands b !! JS.slice1 (cmd_of msg)) as [fn|].
  - now destruct (found_body P fn msg _) as [[[u|e] b2] t].
  - now destruct (not_found_body P msg _) as [[[u|e] b2] t].
Qed.

(** The dispatcher never throws and changes nothing in the bot but the
    request counter. *)
Lemma _onMessage_bot P msg b :
  result_of (_onMessage P msg b) = Ok tt /\
  bot_of (_onMessage P msg b) = if is_command msg then counted b else b.
Proof.
  rewrite _onMessage_eq. destruct (is_command msg); [|now split].
  destruct (resolve b _) as [fn|].
  - rewrite found_body_eq.
    destruct (guild msg), (delete_err P msg); cbv zeta;
      try (now split);
      now destruct (fn _ msg (args_of msg)).
  - rewrite not_found_body_eq.
    destruct (delete_err P msg); [now split|].
    now destruct (send_err P (author msg) (notice msg)).
Qed.

(** ** C5: the request counter *)

(** C5 (as the code has it).  The counter grows by exactly one for every
    message that is not from a bot and whose first token starts with the
    command marker, before the registry is consulted: whether the keyword
    is known and whether the handler succeeds play no part.  Every other
    message leaves it unchanged. *)
Theorem request_count_counts_every_command_message P msg b :
  REQUEST_COUNT (bot_of (_onMessage P msg b))
  = if is_command msg then S (REQUEST_COUNT b) else REQUEST_COUNT b.
Proof.
  rewrite (proj2 (_onMessage_bot P msg b)). now destruct (is_command msg).
Qed.

(** C5 as stated fails: the counter goes from 0 to 1 on a message whose
    keyword is unknown, and on a message whose handler rejects. *)
Lemma request_count_grows_without_success :
  let boom : BotAction := fun _ _ _ => Throw "boom" in
  let armed := addCommand "boom" "`!boom`" boom None Fixtures.ready in
  let unknown := _onMessage Fixtures.calm (Fixtures.in_guild "!foo")
                   Fixtures.ready in
  let failing := _onMessage Fixtures.calm (Fixtures.in_guild "!boom")
                   armed in
  REQUEST_COUNT Fixtures.ready = 0 /\
  resolve Fixtures.ready "foo" = None /\
  REQUEST_COUNT (bot_of unknown) = 1 /\
  resolve armed "boom" = Some boom /\
  In (EvInvoke (Some Fixtures.guild1) (Fixtures.in_guild "!boom") []
        (Throw "boom")) (events_of failing) /\
  REQUEST_COUNT (bot_of failing) = 1.
Proof.
  cbv zeta. repeat split; try reflexivity.
  vm_compute. right. now left.
Qed.

(** ** C6: when the dispatcher ends the process *)

Lemma exit_trail_In msg output code :
  In (EvExit code) (exit_trail msg output) <->
  code = 0%Z /\ cmd_of msg = "!shutdown" /\ output = SHUTDOWN_OK.
Proof.
  unfold exit_trail. split.
  - intros H.
    destruct (String.eqb_spec (cmd_of msg) "!shutdown") as [Hc|Hc];
      destruct (String.eqb_spec output SHUTDOWN_OK) as [Ho|Ho];
      cbn [andb] in H; try contradiction.
    destruct H as [H|[]]. now injection H as <-.
  - intros (-> & Hc & ->). rewrite Hc, !String.eqb_refl. now left.
Qed.

Lemma use_trail_quiet P b msg output : Forall quiet (use_trail P b msg output).
Proof.
  unfold use_trail. destruct (_logChannel b); [|repeat constructor].
  destruct (commandUseLogMessage_err P msg output); repeat constructor.
Qed.

Lemma delete_trail_quiet msg : Forall quiet (delete_trail msg).
Proof. unfold delete_trail. destruct (guild msg); repeat constructor. Qed.

Lemma quiet_In ev l : Forall quiet l -> In ev l -> quiet ev.
Proof. intros Hall. now apply List.Forall_forall. Qed.

(** The events of a dispatch in which handler [fn] was reached. *)
Lemma found_events P fn msg b :
  delete_passed P msg ->
  let g := guild_arg b msg in
  events_of
    (match found_body P fn msg (counted b) with
     | (Ok u, b2, t) => (Ok u, b2, t)
     | (Throw e, b2, t) =>
         (Ok tt, b2, t ++ [EvLog LError (command_error_line msg e)])
     end)
  = delete_trail msg
    ++ EvInvoke g msg (args_of msg) (fn g msg (args_of msg))
       :: match fn g msg (args_of msg) with
          | Ok output =>
              use_trail P b msg output
              ++ EvLog LCmd (cmd_line msg output) :: exit_trail msg output
          | Throw e => [EvLog LError (command_error_line msg e)]
          end.
Proof.
  intros Hd g. rewrite found_body_eq. fold g.
  change (guild_arg (counted b) msg) with g.
  assert (E : match guild msg, delete_err P msg with
              | Some _, Some _ => False
              | _, _ => True
              end).
  { destruct Hd as [-> | ->]; [exact I | now destruct (guild msg)]. }
  destruct (guild msg) eqn:Hgm, (delete_err P msg) eqn:Hde;
    try contradiction; cbv zeta.
  all: destruct (fn g msg (args_of msg)); cbn [events_of snd].
  all: now rewrite <- ?app_assoc.
Qed.

Lemma found_events_blocked P fn msg b g e :
  guild msg = Some g ->
  delete_err P msg = Some e ->
  events_of
    (match found_body P fn msg (counted b) with
     | (Ok u, b2, t) => (Ok u, b2, t)
     | (Throw e, b2, t) =>
         (Ok tt, b2, t ++ [EvLog LError (command_error_line msg e)])
     end)
  = [EvDelete msg (Some e); EvLog LError (command_error_line msg e)].
Proof. intros Hg He. now rewrite found_body_eq, Hg, He. Qed.

Lemma not_found_events_quiet P msg b :
  Forall quiet
    (events_of
       (match not_found_body P msg (counted b) with
        | (Ok u, b2, t) => (Ok u, b2, t)
        | (Throw e, b2, t) =>
            (Ok tt, b2, t ++ [EvLog LError "MESSAGE_DELETE"])
        end)).
Proof.
  rewrite not_found_body_eq.
  destruct (delete_err P msg); [repeat constructor|].
  destruct (send_err P (author msg) (notice msg)); repeat constructor.
Qed.

(** Closes a goal whose hypothesis [H] finds an invocation or an exit in
    a part of the log that has none. *)
Ltac loud H :=
  exfalso;
  first [ exact (quiet_In _ _ (delete_trail_quiet _) H)
        | exact (quiet_In _ _ (use_trail_quiet _ _ _ _) H)
        | exact (quiet_In _ _ (not_found_events_quiet _ _ _) H) ].

Lemma delete_passed_dec P msg :
  delete_passed P msg \/
  exists g e, guild msg = Some g /\ delete_err P msg = Some e.
Proof.
  unfold delete_passed.
  destruct (guild msg) as [g|]; [|now left; left].
  destruct (delete_err P msg) as [e|]; [right; eauto | now left; right].
Qed.

(** Every handler invocation the dispatcher makes is the call of the
    handler registered under the keyword, and it happens at most once. *)
Lemma invoke_In P msg b g m args outcome :
  In (EvInvoke g m args outcome) (events_of (_onMessage P msg b)) <->
  is_command msg = true /\ delete_passed P msg /\
  exists fn,
    resolve b (JS.slice1 (cmd_of msg)) = Some fn /\
    g = guild_arg b msg /\ m = msg /\ args = args_of msg /\
    outcome = fn g msg args.
Proof.
  rewrite _onMessage_eq.
  destruct (is_command msg);
    [|split; [intros [] | intros (H & _); discriminate H]].
  destruct (resolve b (JS.slice1 (cmd_of msg))) as [fn|].
  - destruct (delete_passed_dec P msg) as [Hd | (g0 & e & Hg & He)].
    + rewrite (found_events P fn msg b Hd). cbv zeta.
      rewrite in_app_iff. cbn [In]. split.
      * intros [H|[H|H]].
        -- loud H.
        -- injection H as <- <- <- <-. repeat split; eauto 10.
        -- exfalso. destruct (fn _ msg (args_of msg)) as [output|e].
           ++ rewrite in_app_iff in H. cbn [In] in H.
              destruct H as [H|[H|H]]; [|discriminate H|].
              ** loud H.
              ** unfold exit_trail in H.
                 destruct (_ && _); [destruct H as [H|[]]; discriminate H
                                    | destruct H].
           ++ destruct H as [H|[]]; discriminate H.
      * intros (_ & _ & fn' & [= <-] & -> & -> & -> & ->). right. now left.
    + rewrite (found_events_blocked P fn msg b g0 e Hg He). split.
      * intros [H|[H|[]]]; discriminate H.
      * intros (_ & [Hn|Hn] & _); congruence.
  - split.
    + intros H.
      loud H.
    + intros (_ & _ & fn & Hfn & _). discriminate Hfn.
Qed.

(** The dispatcher ends the process exactly when the first token is
    [!shutdown] and the handler it invoked returned [SHUTDOWN_OK]. *)
Lemma exit_In P msg b code :
  In (EvExit code) (events_of (_onMessage P msg b)) <->
  code = 0%Z /\ cmd_of msg = "!shutdown" /\
  In (EvInvoke (guild_arg b msg) msg (args_of msg) (Ok SHUTDOWN_OK))
    (events_of (_onMessage P msg b)).
Proof.
  rewrite invoke_In. rewrite _onMessage_eq.
  destruct (is_command msg);
    [|split; [intros [] | intros (_ & _ & H & _); discriminate H]].
  destruct (resolve b (JS.slice1 (cmd_of msg))) as [fn|].
  - destruct (delete_passed_dec P msg) as [Hd | (g0 & e & Hg & He)].
    + rewrite (found_events P fn msg b Hd). cbv zeta.
      rewrite in_app_iff. cbn [In].
      destruct (fn (guild_arg b msg) msg (args_of msg)) as [output|e] eqn:Hf.
      * rewrite in_app_iff. cbn [In]. rewrite exit_trail_In. split.
        -- intros [H|[H|[H|[H|H]]]]; try discriminate H.
           ++ loud H.
           ++ loud H.
           ++ destruct H as (-> & Hc & ->). repeat split; eauto 10.
        -- intros (-> & Hc & _ & _ & fn' & [= <-] & _ & _ & _ & Ho).
           rewrite Hf in Ho. injection Ho as <-.
           right. right. right. right. now repeat split.
      * split.
        -- intros [H|[H|[H|[]]]]; try discriminate H.
           loud H.
        -- intros (_ & _ & _ & _ & fn' & [= <-] & _ & _ & _ & Ho).
           rewrite Hf in Ho. discriminate Ho.
    + rewrite (found_events_blocked P fn msg b g0 e Hg He). split.
      * intros [H|[H|[]]]; discriminate H.
      * intros (_ & _ & _ & [Hn|Hn] & _); congruence.
  - split.
    + intros H.
      loud H.
    + intros (_ & _ & _ & _ & fn & Hfn & _). discriminate Hfn.
Qed.

(** C6 (as the code has it).  A dispatch ends the process if and only
    if the message is a command whose first token is [!shutdown], a
    handler is registered under [shutdown], the deletion of the message
    (asked for in a shared channel only) was not rejected, and the
    handler, called with the guild and the remaining tokens, returns
    exactly [SHUTDOWN_OK].  The process then ends with code 0 after that
    invocation.  Hence a handler that returns any other string, and a
    message with any other first token, never end the process. *)
Theorem shutdown_exits_iff_reached_and_sentinel P msg b :
  let log := events_of (_onMessage P msg b) in
  ((exists code, In (EvExit code) log) <->
   is_command msg = true /\ cmd_of msg = "!shutdown" /\
   delete_passed P msg /\
   exists fn,
     resolve b "shutdown" = Some fn /\
     fn (guild_arg b msg) msg (args_of msg) = Ok SHUTDOWN_OK) /\
  (forall code,
      In (EvExit code) log ->
      code = 0%Z /\
      In (EvInvoke (guild_arg b msg) msg (args_of msg) (Ok SHUTDOWN_OK))
        log) /\
  (forall fn,
      resolve b (JS.slice1 (cmd_of msg)) = Some fn ->
      fn (guild_arg b msg) msg (args_of msg) <> Ok SHUTDOWN_OK ->
      forall code, ~ In (EvExit code) log) /\
  (cmd_of msg <> "!shutdown" -> forall code, ~ In (EvExit code) log).
Proof.
  cbv zeta. split; [|split; [|split]].
  - split.
    + intros (code & Hexit). apply exit_In in Hexit as (_ & Hc & Hinv).
      apply invoke_In in Hinv as (Hcmd & Hd & fn & Hfn & _ & _ & _ & Ho).
      rewrite Hc in Hfn. repeat split; [exact Hcmd | exact Hc | exact Hd|].
      exists fn. split; [exact Hfn | now symmetry].
    + intros (Hcmd & Hc & Hd & fn & Hfn & Ho). exists 0%Z.
      apply exit_In. split; [reflexivity|]. split; [exact Hc|].
      apply invoke_In. split; [exact Hcmd|]. split; [exact Hd|].
      exists fn. rewrite Hc. repeat split; [exact Hfn | now symmetry].
  - intros code Hexit. apply exit_In in Hexit as (-> & _ & Hinv).
    now split.
  - intros fn Hfn Hne code Hexit.
    apply exit_In in Hexit as (_ & _ & Hinv).
    apply invoke_In in Hinv as (_ & _ & fn' & Hfn' & _ & _ & _ & Ho).
    rewrite Hfn in Hfn'. injection Hfn' as <-. now destruct Hne.
  - intros Hc code Hexit. now apply exit_In in Hexit as (_ & Hc' & _).
Qed.

Lemma shutdown_exits_iff_reached_and_sentinel_witness :
  let halt : BotAction := fun _ _ _ => Ok SHUTDOWN_OK in
  let armed := addCommand "shutdown" "`!shutdown`" halt None Fixtures.ready in
  exists code,
    In (EvExit code)
      (events_of (_onMessage Fixtures.calm (Fixtures.in_guild "!shutdown")
                    armed)).
Proof.
  cbv zeta.
  apply (proj1 (shutdown_exits_iff_reached_and_sentinel Fixtures.calm
                  (Fixtures.in_guild "!shutdown")
                  (addCommand "shutdown" "`!shutdown`"
                     (fun _ _ _ => Ok SHUTDOWN_OK) None Fixtures.ready))).
  split; [reflexivity|]. split; [reflexivity|].
  split; [right; reflexivity|].
  exists (fun _ _ _ => Ok SHUTDOWN_OK). now split.
Defined.

(** C6 as stated fails: [!shutdown] sent in a shared channel, with a
    handler that returns exactly [SHUTDOWN_OK], does not end the process
    when the platform rejects the deletion of the message; the handler is
    not even invoked. *)
Lemma shutdown_blocked_by_rejected_deletion :
  let halt : BotAction := fun _ _ _ => Ok SHUTDOWN_OK in
  let armed := addCommand "shutdown" "`!shutdown`" halt None Fixtures.ready in
  let msg := Fixtures.in_guild "!shutdown" in
  let log := events_of (_onMessage Fixtures.refusing msg armed) in
  resolve armed "shutdown" = Some halt /\
  halt (Some Fixtures.guild1) msg [] = Ok SHUTDOWN_OK /\
  log
  = [EvDelete msg (Some "Missing Access");
     EvLog LError "COMMAND (GLD)(alice - !shutdown) : Missing Access"] /\
  ~ (exists code, In (EvExit code) log).
Proof.
  cbv zeta. repeat split; try reflexivity.
  intros (code & H). vm_compute in H.
  destruct H as [H|[H|[]]]; discriminate H.
Qed.

(** ** C4: a command marker followed by an unknown keyword *)

(** C4 (as the code has it).  For a message in a shared channel, not
    from a bot, whose first token starts with the command marker and
    resolves to no command: the dispatcher requests the deletion of the
    message; if the deletion succeeds it sends the private notice and,
    if that succeeds too, logs NO_COMMAND at error level; if the deletion
    fails the notice is not sent and MESSAGE_DELETE is logged at error
    level instead.  Nothing is thrown. *)
Theorem unknown_command_in_shared_channel P msg b g :
  is_command msg = true ->
  resolve b (JS.slice1 (cmd_of msg)) = None ->
  guild msg = Some g ->
  let run := _onMessage P msg b in
  result_of run = Ok tt /\
  events_of run
  = match delete_err P msg with
    | Some e => [EvDelete msg (Some e); EvLog LError "MESSAGE_DELETE"]
    | None =>
        EvDelete msg None
        :: match send_err P (author msg) (notice msg) with
           | Some e =>
               [EvSend (author msg) (notice msg) (Some e);
                EvLog LError "MESSAGE_DELETE"]
           | None =>
               [EvSend (author msg) (notice msg) None;
                EvLog LError (no_command_line msg)]
           end
    end.
Proof.
  intros Hc Hr _ run. split; [apply _onMessage_bot|].
  subst run. rewrite _onMessage_eq, Hc, Hr, not_found_body_eq.
  destruct (delete_err P msg); [reflexivity|].
  now destruct (send_err P (author msg) (notice msg)).
Qed.

Lemma unknown_command_in_shared_channel_witness :
  events_of (_onMessage Fixtures.calm (Fixtures.in_guild "!foo bar")
               Fixtures.ready)
  = [EvDelete (Fixtures.in_guild "!foo bar") None;
     EvSend Fixtures.alice "Sorry, I wasn't taught how to handle `!foo`. 🙁"
       None;
     EvLog LError "NO_COMMAND (alice) - !foo"].
Proof.
  exact (proj2 (unknown_command_in_shared_channel Fixtures.calm
                  (Fixtures.in_guild "!foo bar") Fixtures.ready
                  Fixtures.guild1 eq_refl eq_refl eq_refl)).
Defined.

(** C4 as stated fails: in a shared channel, when the platform rejects
    the deletion, the sender gets no notice; the only line logged is
    MESSAGE_DELETE. *)
Lemma unknown_command_failed_deletion_drops_notice :
  let msg := Fixtures.in_guild "!foo" in
  let run := _onMessage Fixtures.refusing msg Fixtures.ready in
  resolve Fixtures.ready "foo" = None /\
  send_err Fixtures.refusing (author msg) (notice msg) = None /\
  events_of run
  = [EvDelete msg (Some "Missing Access"); EvLog LError "MESSAGE_DELETE"] /\
  ~ (exists to text err, In (EvSend to text err) (events_of run)).
Proof.
  cbv zeta. repeat split; try reflexivity.
  intros (to & text & err & H). vm_compute in H.
  destruct H as [H|[H|[]]]; discriminate H.
Qed.

(** ** C7: the registry keeps the last registration of a keyword *)

Lemma resolve_register b r k :
  resolve (register b r) k
  = if decide (reg_cmd r = k) then Some (installed r) else resolve b k.
Proof.
  unfold resolve, register, addCommand, installed.
  cbn [_commands set_registry]. rewrite lookup_insert.
  destruct (decide (reg_cmd r = k)); [|reflexivity].
  now destruct (reg_provision r).
Qed.

Lemma resolve_register_all_other rs b k :
  (forall r, In r rs -> reg_cmd r <> k) ->
  resolve (register_all rs b) k = resolve b k.
Proof.
  unfold register_all. revert b.
  induction rs as [|r rs IH]; intros b H; [reflexivity|]. cbn [fold_left].
  rewrite IH by (intros r' Hr'; apply H; now right).
  rewrite resolve_register.
  destruct (decide (reg_cmd r = k)) as [E|]; [|reflexivity].
  destruct (H r (or_introl eq_refl) E).
Qed.

Lemma register_all_app rs1 rs2 b :
  register_all (rs1 ++ rs2) b = register_all rs2 (register_all rs1 b).
Proof. apply fold_left_app. Qed.

(** C7 (as the code has it).  Starting from the empty registry of a new
    bot, after any chain of [addCommand] calls, a keyword resolves to the
    handler stored by the last call made under it: the supplied action
    when that call gave no access decorator, the decorator applied to the
    action otherwise.  A keyword under which no call was made resolves to
    nothing. *)
Theorem resolve_yields_last_registration (rs : list Registration)
    (k : string) :
  (forall pre r post,
      rs = pre ++ r :: post ->
      reg_cmd r = k ->
      (forall r', In r' post -> reg_cmd r' <> k) ->
      resolve (register_all rs new_Bot) k = Some (installed r) /\
      (reg_provision r = None -> installed r = reg_action r)) /\
  ((forall r, In r rs -> reg_cmd r <> k) ->
   resolve (register_all rs new_Bot) k = None).
Proof.
  split.
  - intros pre r post -> Hk Hpost. split.
    + rewrite register_all_app.
      change (register_all (r :: post) ?b)
        with (register_all post (register b r)).
      rewrite (resolve_register_all_other _ _ _ Hpost), resolve_register.
      now destruct (decide (reg_cmd r = k)).
    + unfold installed. now intros ->.
  - intros H. now rewrite (resolve_register_all_other _ _ _ H).
Qed.

Lemma resolve_yields_last_registration_witness :
  let first : BotAction := fun _ _ _ => Ok "first" in
  let second : BotAction := fun _ _ _ => Ok "second" in
  let reg a := {| reg_cmd := "ratio"; reg_desc := "`!ratio`";
                  reg_action := a; reg_provision := None |} in
  resolve (register_all [reg first; reg second] new_Bot) "ratio"
  = Some second.
Proof.
  cbv zeta.
  exact (proj1 (proj1 (resolve_yields_last_registration
    [ {| reg_cmd := "ratio"; reg_desc := "`!ratio`";
         reg_action := fun _ _ _ => Ok "first"; reg_provision := None |};
      {| reg_cmd := "ratio"; reg_desc := "`!ratio`";
         reg_action := fun _ _ _ => Ok "second"; reg_provision := None |} ]
    "ratio")
    [ {| reg_cmd := "ratio"; reg_desc := "`!ratio`";
         reg_action := fun _ _ _ => Ok "first"; reg_provision := None |} ]
    _ [] eq_refl eq_refl (fun _ H => match H with end))).
Defined.

(** C7 as stated fails for a registration that carries an access
    decorator, as the bot's own [polls] and [shutdown] commands do: the
    keyword resolves to the decorated handler, which is not the handler
    that was supplied. *)
Lemma decorated_registration_resolves_to_wrapper :
  let polls : BotAction := fun _ _ _ => Ok "POLLS_OUTPUT" in
  let deprecate : CommandProvision :=
    {| provision_name := "deprecate";
       provision_wrap := fun _ => fun _ _ _ => Ok "DEPRECATED_COMMAND" |} in
  let b := addCommand "polls" "`!polls`" polls (Some deprecate) new_Bot in
  exists fn,
    resolve b "polls" = Some fn /\
    fn None (Fixtures.in_private "!polls") [] = Ok "DEPRECATED_COMMAND" /\
    fn <> polls.
Proof.
  cbv zeta. eexists. split; [reflexivity|]. split; [reflexivity|].
  intros H.
  apply (f_equal (fun f : BotAction =>
                    f None (Fixtures.in_private "!polls") [])) in H.
  discriminate H.
Qed.

(** [start] only adds the two help keywords. *)
Lemma start_commands_resolve help b k :
  resolve (start_commands help b) k
  = if decide (k = "help" \/ k = "?") then Some (help (_descriptions b))
    else resolve b k.
Proof.
  unfold resolve, start_commands. cbn [_commands set_registry].
  rewrite !lookup_insert.
  destruct (decide ("help" = k)) as [<-|]; [reflexivity|].
  destruct (decide ("?" = k)) as [<-|]; [reflexivity|].
  destruct (decide (k = "help" \/ k = "?")) as [[->| ->]|]; congruence.
Qed.

(** ** C8: reading role sets *)

(** C8. With the guild available, [getUserRoles] without an id (absent
    or empty) returns one entry per member, in member order, each with
    the names of the roles that member holds; with an id it returns the
    single entry of the member with that id and throws when there is no
    such member.  In every case the bot is unchanged and nothing is
    emitted. *)
Theorem getUserRoles_reads_current_roles b g :
  _guild b = Some g ->
  (forall id,
      JS.truthy id = false ->
      getUserRoles id b
      = (Ok (map (fun m => (user_id (user m), map role_name (roles m)))
               (members g)), b, [])) /\
  (forall id m,
      id <> "" ->
      find_member g id = Some m ->
      getUserRoles (Some id) b
      = (Ok [(id, map role_name (roles m))], b, [])) /\
  (forall id,
      id <> "" ->
      find_member g id = None ->
      exists e, getUserRoles (Some id) b = (Throw e, b, [])).
Proof.
  intros Hg. unfold getUserRoles. repeat split.
  - intros id ->. run_m. now rewrite Hg.
  - intros id m Hid Hm. destruct id as [|c id]; [contradiction|].
    cbn [JS.truthy]. run_m. now rewrite Hg, Hm.
  - intros id Hid Hm. destruct id as [|c id]; [contradiction|].
    cbn [JS.truthy]. run_m. rewrite Hg, Hm. eauto.
Qed.

Lemma getUserRoles_reads_current_roles_witness :
  getUserRoles None Fixtures.ready
  = (Ok [("u1", ["C"])], Fixtures.ready, []) /\
  getUserRoles (Some "u1") Fixtures.ready
  = (Ok [("u1", ["C"])], Fixtures.ready, []) /\
  exists e,
    getUserRoles (Some "ghost") Fixtures.ready
    = (Throw e, Fixtures.ready, []).
Proof.
  destruct (getUserRoles_reads_current_roles Fixtures.ready
              Fixtures.guild1 eq_refl) as (Hall & Hone & Hnone).
  split; [exact (Hall None eq_refl)|].
  split.
  - exact (Hone "u1" {| user := Fixtures.alice; roles := [Fixtures.rC] |}
             ltac:(discriminate) eq_refl).
  - exact (Hnone "ghost" ltac:(discriminate) eq_refl).
Defined.

(** * Further properties *)

(** ** The dispatcher on arbitrary messages *)

Lemma startsWith_hd_split c sep s :
  c <> sep ->
  JS.startsWith c (hd "" (JS.split sep s)) = JS.startsWith c s.
Proof.
  intros Hne. destruct s as [|a r]; [reflexivity|]. cbn [JS.split].
  destruct (Ascii.eqb_spec a sep) as [->|Ha].
  - cbn. symmetry. apply Ascii.eqb_neq. congruence.
  - now destruct (JS.split sep r).
Qed.

Lemma is_command_content msg :
  is_command msg
  = negb (bot (author msg)) && JS.startsWith "!" (content msg).
Proof.
  unfold is_command, cmd_of. now rewrite startsWith_hd_split.
Qed.

Lemma counted_neq b : counted b <> b.
Proof.
  intros H. apply (f_equal REQUEST_COUNT) in H. cbn in H. lia.
Qed.

(** X1. The dispatcher does nothing at all (no event, no change of the
    bot, no counting) exactly for the messages sent by a bot and the
    messages whose text does not begin with the marker [!]. *)
Theorem dispatcher_ignores_exactly_non_commands P msg b :
  _onMessage P msg b = (Ok tt, b, []) <->
  bot (author msg) = true \/ JS.startsWith "!" (content msg) = false.
Proof.
  pose proof (_onMessage_bot P msg b) as [_ Hb].
  rewrite is_command_content in Hb. split.
  - intros H. rewrite H in Hb. cbn [bot_of fst snd] in Hb.
    destruct (bot (author msg)); [now left|].
    destruct (JS.startsWith "!" (content msg)); [|now right].
    cbn in Hb. now destruct (counted_neq b).
  - intros H. rewrite _onMessage_eq, is_command_content.
    destruct H as [-> | ->]; [reflexivity|].
    now rewrite andb_false_r.
Qed.

Lemma concat_split sep s :
  String.concat (String sep "") (JS.split sep s) = s.
Proof.
  induction s as [|c r IH]; [reflexivity|]. cbn [JS.split].
  destruct (Ascii.eqb_spec c sep) as [->|Hc].
  - pose proof (split_nonempty sep r) as Hne.
    destruct (JS.split sep r) as [|h t]; [contradiction|].
    cbn [String.concat] in *. cbn. now rewrite IH.
  - pose proof (split_nonempty sep r) as Hne.
    destruct (JS.split sep r) as [|h t]; [contradiction|].
    destruct t as [|h' t]; cbn [String.concat] in *; now rewrite <- IH.
Qed.

Lemma split_tokens_clean sep s :
  Forall (fun tok => has_char sep tok = false) (JS.split sep s).
Proof.
  induction s as [|c r IH]; [repeat constructor|]. cbn [JS.split].
  destruct (Ascii.eqb c sep) eqn:Hc.
  - constructor; [reflexivity | exact IH].
  - destruct (JS.split sep r) as [|h t];
      [repeat constructor; cbn; now rewrite Hc|].
    inversion IH as [|? ? Hh Ht]; subst.
    constructor; [cbn; now rewrite Hc, Hh | exact Ht].
Qed.

(** X2. Tokenizing loses nothing: the keyword token and the arguments,
    joined by single spaces, are the message text again, and no token
    contains a space (so two spaces in a row yield an empty argument). *)
Theorem tokens_rebuild_content msg :
  JS.join " " (cmd_of msg :: args_of msg) = content msg /\
  Forall (fun tok => has_char " " tok = false) (cmd_of msg :: args_of msg).
Proof.
  unfold cmd_of, args_of, JS.join.
  pose proof (split_nonempty " " (content msg)) as Hne.
  pose proof (concat_split " " (content msg)) as Hc.
  pose proof (split_tokens_clean " " (content msg)) as Hf.
  destruct (JS.split " " (content msg)) as [|h t]; [contradiction|].
  now split.
Qed.

(** X3. In a shared channel a rejected deletion aborts the command: the
    request is counted, the handler is never invoked, and the only other
    trace is one COMMAND line at error level with the platform's message. *)
Theorem rejected_deletion_aborts_command P msg b fn g e :
  is_command msg = true ->
  resolve b (JS.slice1 (cmd_of msg)) = Some fn ->
  guild msg = Some g ->
  delete_err P msg = Some e ->
  _onMessage P msg b
  = (Ok tt, counted b,
     [EvDelete msg (Some e); EvLog LError (command_error_line msg e)]).
Proof.
  intros Hc Hr Hg He.
  now rewrite _onMessage_eq, Hc, Hr, found_body_eq, Hg, He.
Qed.

Lemma rejected_deletion_aborts_command_witness :
  let noop : BotAction := fun _ _ _ => Ok "done" in
  let b := addCommand "ratio" "`!ratio`" noop None Fixtures.ready in
  events_of (_onMessage Fixtures.refusing (Fixtures.in_guild "!ratio 1 2")
               b)
  = [EvDelete (Fixtures.in_guild "!ratio 1 2") (Some "Missing Access");
     EvLog LError "COMMAND (GLD)(alice - !ratio) : Missing Access"].
Proof.
  cbv zeta.
  exact (f_equal events_of
           (rejected_deletion_aborts_command Fixtures.refusing
              (Fixtures.in_guild "!ratio 1 2")
              (addCommand "ratio" "`!ratio`" (fun _ _ _ => Ok "done") None
                 Fixtures.ready)
              (fun _ _ _ => Ok "done") Fixtures.guild1 "Missing Access"
              eq_refl eq_refl eq_refl eq_refl)).
Defined.

Lemma found_run P msg b fn :
  is_command msg = true ->
  resolve b (JS.slice1 (cmd_of msg)) = Some fn ->
  delete_passed P msg ->
  let g := guild_arg b msg in
  _onMessage P msg b
  = (Ok tt, counted b,
     delete_trail msg
     ++ EvInvoke g msg (args_of msg) (fn g msg (args_of msg))
        :: match fn g msg (args_of msg) with
           | Ok output =>
               use_trail P b msg output
               ++ EvLog LCmd (cmd_line msg output) :: exit_trail msg output
           | Throw e => [EvLog LError (command_error_line msg e)]
           end).
Proof.
  intros Hc Hr Hd g.
  pose proof (_onMessage_bot P msg b) as [Hres Hbot].
  pose proof (found_events P fn msg b Hd) as Hev. cbv zeta in Hev.
  rewrite Hc in Hbot.
  rewrite _onMessage_eq, Hc, Hr in Hres, Hbot |- *.
  destruct (match found_body P fn msg (counted b) with
            | (Ok u, b2, t) => (Ok u, b2, t)
            | (Throw e, b2, t) =>
                (Ok tt, b2, t ++ [EvLog LError (command_error_line msg e)])
            end) as [[r b'] t].
  cbn in Hres, Hbot, Hev. now subst.
Qed.

(** X4. A handler that rejects is contained: the dispatcher returns
    normally, and after the invocation it emits exactly one COMMAND line
    at error level carrying the handler's message; no command-use audit
    entry and no command log line are written. *)
Theorem handler_failure_is_contained P msg b fn e :
  is_command msg = true ->
  resolve b (JS.slice1 (cmd_of msg)) = Some fn ->
  delete_passed P msg ->
  fn (guild_arg b msg) msg (args_of msg) = Throw e ->
  _onMessage P msg b
  = (Ok tt, counted b,
     delete_trail msg
     ++ [EvInvoke (guild_arg b msg) msg (args_of msg) (Throw e);
         EvLog LError (command_error_line msg e)]).
Proof.
  intros Hc Hr Hd Hf. rewrite (found_run P msg b fn Hc Hr Hd).
  cbv zeta. now rewrite Hf.
Qed.

Lemma handler_failure_is_contained_witness :
  let boom : BotAction := fun _ _ _ => Throw "boom" in
  let b := addCommand "boom" "`!boom`" boom None Fixtures.ready in
  events_of (_onMessage Fixtures.calm (Fixtures.in_private "!boom now") b)
  = [EvInvoke (Some Fixtures.guild1) (Fixtures.in_private "!boom now")
       ["now"] (Throw "boom");
     EvLog LError "COMMAND (PM)(alice - !boom) : boom"].
Proof.
  cbv zeta.
  exact (f_equal events_of
           (handler_failure_is_contained Fixtures.calm
              (Fixtures.in_private "!boom now")
              (addCommand "boom" "`!boom`" (fun _ _ _ => Throw "boom") None
                 Fixtures.ready)
              (fun _ _ _ => Throw "boom") "boom"
              eq_refl eq_refl (or_introl eq_refl) eq_refl)).
Defined.

(** X5. A handler that returns [output] is invoked once, with the
    message's guild (the bot's guild for a private message) and the
    tokens after the keyword; the dispatcher then attempts one
    command-use audit entry, writes one command log line, and ends the
    process only under the [!shutdown] test. *)
Theorem successful_command_trace P msg b fn output :
  is_command msg = true ->
  resolve b (JS.slice1 (cmd_of msg)) = Some fn ->
  delete_passed P msg ->
  fn (guild_arg b msg) msg (args_of msg) = Ok output ->
  _onMessage P msg b
  = (Ok tt, counted b,
     delete_trail msg
     ++ EvInvoke (guild_arg b msg) msg (args_of msg) (Ok output)
        :: use_trail P b msg output
        ++ EvLog LCmd (cmd_line msg output) :: exit_trail msg output).
Proof.
  intros Hc Hr Hd Hf. rewrite (found_run P msg b fn Hc Hr Hd).
  cbv zeta. now rewrite Hf.
Qed.

Lemma successful_command_trace_witness :
  let ratio : BotAction := fun _ _ args => Ok (JS.join "/" args) in
  let b := addCommand "ratio" "`!ratio`" ratio None Fixtures.ready in
  events_of (_onMessage Fixtures.calm (Fixtures.in_guild "!ratio 1 2") b)
  = [EvDelete (Fixtures.in_guild "!ratio 1 2") None;
     EvInvoke (Some Fixtures.guild1) (Fixtures.in_guild "!ratio 1 2")
       ["1"; "2"] (Ok "1/2");
     EvCommandUse (Fixtures.in_guild "!ratio 1 2") "1/2";
     EvLog LCmd "(GLD)(alice - !ratio) - 1/2"].
Proof.
  cbv zeta.
  exact (f_equal events_of
           (successful_command_trace Fixtures.calm
              (Fixtures.in_guild "!ratio 1 2")
              (addCommand "ratio" "`!ratio`"
                 (fun _ _ args => Ok (JS.join "/" args)) None Fixtures.ready)
              (fun _ _ args => Ok (JS.join "/" args)) "1/2"
              eq_refl eq_refl (or_intror eq_refl) eq_refl)).
Defined.

(** Every deletion the dispatcher requests is the deletion of the
    message it is dispatching, and that message is a command. *)
Lemma delete_In P msg b m err :
  In (EvDelete m err) (events_of (_onMessage P msg b)) ->
  m = msg /\ is_command msg = true /\
  (guild msg = None -> resolve b (JS.slice1 (cmd_of msg)) = None).
Proof.
  rewrite _onMessage_eq.
  destruct (is_command msg); [|intros []].
  destruct (resolve b (JS.slice1 (cmd_of msg))) as [fn|].
  - destruct (delete_passed_dec P msg) as [Hd | (g0 & e & Hg & He)].
    + rewrite (found_events P fn msg b Hd). cbv zeta.
      unfold delete_trail, use_trail, exit_trail.
      destruct (guild msg);
        destruct (fn _ msg (args_of msg));
        destruct (_logChannel b);
        try destruct (commandUseLogMessage_err P msg _);
        try destruct (_ && _);
        cbn [app In]; intros H;
        repeat (destruct H as [H|H]; try discriminate H); try contradiction.
      all: injection H as <- _; repeat split; discriminate.
    + rewrite (found_events_blocked P fn msg b g0 e Hg He).
      intros [H|[H|[]]]; [|discriminate H].
      injection H as <- _. repeat split. congruence.
  - rewrite not_found_body_eq.
    destruct (delete_err P msg);
      [|destruct (send_err P (author msg) (notice msg))];
      cbn [events_of snd app In]; intros H;
      repeat (destruct H as [H|H]; try discriminate H); try contradiction.
    all: injection H as <- _; now repeat split.
Qed.

(** X6. For a private message whose keyword is registered the
    dispatcher never requests a deletion, whatever the handler does. *)
Theorem private_commands_are_not_deleted P msg b fn :
  guild msg = None ->
  resolve b (JS.slice1 (cmd_of msg)) = Some fn ->
  forall m err, ~ In (EvDelete m err) (events_of (_onMessage P msg b)).
Proof.
  intros Hg Hr m err Hin.
  apply delete_In in Hin as (_ & _ & Hnone).
  rewrite (Hnone Hg) in Hr. discriminate Hr.
Qed.

Lemma private_commands_are_not_deleted_witness :
  ~ In (EvDelete (Fixtures.in_private "!ratio 1 2") None)
      (events_of
         (_onMessage Fixtures.calm (Fixtures.in_private "!ratio 1 2")
            (addCommand "ratio" "`!ratio`" (fun _ _ _ => Ok "done") None
               Fixtures.ready))).
Proof.
  exact (private_commands_are_not_deleted Fixtures.calm
           (Fixtures.in_private "!ratio 1 2")
           (addCommand "ratio" "`!ratio`" (fun _ _ _ => Ok "done") None
              Fixtures.ready)
           (fun _ _ _ => Ok "done") eq_refl eq_refl _ _).
Defined.

(** X7. The dispatcher and the deletion audit fit together: whatever
    message the dispatcher asks the platform to delete, the
    [messageDelete] handler sends nothing to the log channel for it,
    since its text begins with the marker. *)
Theorem dispatcher_deletions_are_not_audited
    P msg b m err timestamp builder_err b' :
  In (EvDelete m err) (events_of (_onMessage P msg b)) ->
  _logMessageDelete timestamp builder_err m b' = [].
Proof.
  intros Hin. apply delete_In in Hin as (-> & Hc & _).
  rewrite is_command_content in Hc. apply andb_true_iff in Hc as [_ Hc].
  unfold _logMessageDelete. now rewrite Hc.
Qed.

Lemma dispatcher_deletions_are_not_audited_witness :
  _logMessageDelete "Tue, 03 Nov 2026 07:00:00 GMT" (fun _ _ => None)
    (Fixtures.in_guild "!foo") Fixtures.ready
  = [].
Proof.
  apply (dispatcher_deletions_are_not_audited Fixtures.calm
           (Fixtures.in_guild "!foo") Fixtures.ready
           (Fixtures.in_guild "!foo") None).
  vm_compute. now left.
Defined.

(** ** The registry and its descriptions *)

Lemma register_dom b r :
  dom (_commands (register b r)) =@{gset string}
    {[reg_cmd r]} ∪ dom (_commands b) /\
  dom (_descriptions (register b r)) =@{gset string}
    {[reg_cmd r]} ∪ dom (_descriptions b).
Proof.
  unfold register, addCommand. cbn [_commands _descriptions set_registry].
  now rewrite !dom_insert_L.
Qed.

Lemma register_all_dom rs b :
  dom (_descriptions b) =@{gset string} dom (_commands b) ->
  dom (_descriptions (register_all rs b)) =@{gset string}
    dom (_commands (register_all rs b)).
Proof.
  unfold register_all. revert b.
  induction rs as [|r rs IH]; intros b H; [exact H|]. cbn [fold_left].
  apply IH. destruct (register_dom b r) as [-> ->]. now rewrite H.
Qed.

(** X9. Registration keeps the two tables in step: after any chain of
    [addCommand] calls on a new bot, the keywords that have a handler are
    exactly the keywords that have a description; [start] then adds the
    handlers of [?] and [help] without describing them. *)
Theorem every_command_is_described rs help :
  let b := register_all rs new_Bot in
  dom (_descriptions b) =@{gset string} dom (_commands b) /\
  dom (_commands (start_commands help b)) =@{gset string}
    {["help"; "?"]} ∪ dom (_descriptions (start_commands help b)).
Proof.
  cbv zeta.
  assert (H : dom (_descriptions (register_all rs new_Bot)) =@{gset string}
              dom (_commands (register_all rs new_Bot))).
  { apply register_all_dom. cbn. now rewrite !dom_empty_L. }
  split; [exact H|].
  unfold start_commands. cbn [_commands _descriptions set_registry].
  rewrite !dom_insert_L, H. now rewrite (assoc_L (∪)).
Qed.

Lemma describe_register b r k :
  _descriptions (register b r) !! k
  = if decide (reg_cmd r = k)
    then Some (match reg_provision r with
               | Some p =>
                   reg_desc r +:+ " _**(" +:+ provision_name p +:+ ")**_"
               | None => reg_desc r
               end)
    else _descriptions b !! k.
Proof.
  unfold register, addCommand. cbn [_descriptions set_registry].
  rewrite lookup_insert.
  destruct (decide (reg_cmd r = k)); [|reflexivity].
  now destruct (reg_provision r).
Qed.

Lemma describe_register_all_other rs b k :
  (forall r, In r rs -> reg_cmd r <> k) ->
  _descriptions (register_all rs b) !! k = _descriptions b !! k.
Proof.
  unfold register_all. revert b.
  induction rs as [|r rs IH]; intros b H; [reflexivity|]. cbn [fold_left].
  rewrite IH by (intros r' Hr'; apply H; now right).
  rewrite describe_register.
  destruct (decide (reg_cmd r = k)) as [E|]; [|reflexivity].
  destruct (H r (or_introl eq_refl) E).
Qed.

(** X10. The help text of a keyword is the description given by the last
    registration under it, followed by the decorator's name in the form
    [ _**(name)**_] when that registration was gated, and unchanged
    otherwise. *)
Theorem description_of_last_registration pre r post :
  (forall r', In r' post -> reg_cmd r' <> reg_cmd r) ->
  _descriptions (register_all (pre ++ r :: post) new_Bot) !! reg_cmd r
  = Some (match reg_provision r with
          | Some p => reg_desc r +:+ " _**(" +:+ provision_name p +:+ ")**_"
          | None => reg_desc r
          end).
Proof.
  intros Hpost. rewrite register_all_app.
  change (register_all (r :: post) ?b)
    with (register_all post (register b r)).
  rewrite (describe_register_all_other _ _ _ Hpost), describe_register.
  now destruct (decide (reg_cmd r = reg_cmd r)).
Qed.

Lemma description_of_last_registration_witness :
  let admins : CommandProvision :=
    {| provision_name := "admins"; provision_wrap := fun a => a |} in
  _descriptions
    (register_all
       [ {| reg_cmd := "shutdown"; reg_desc := "`!shutdown`: _turns off_";
            reg_action := fun _ _ _ => Ok SHUTDOWN_OK;
            reg_provision := Some admins |} ] new_Bot) !! "shutdown"
  = Some "`!shutdown`: _turns off_ _**(admins)**_".
Proof.
  cbv zeta.
  exact (description_of_last_registration []
           {| reg_cmd := "shutdown"; reg_desc := "`!shutdown`: _turns off_";
              reg_action := fun _ _ _ => Ok SHUTDOWN_OK;
              reg_provision :=
                Some {| provision_name := "admins";
                        provision_wrap := fun a => a |} |}
           [] (fun _ H => match H with end)).
Defined.

(** X11. [start] takes over the keywords [help] and [?]: whatever was
    registered under them before, both resolve to the help handler built
    from the description table as it stands, every other keyword resolves
    as before, and the description table is not touched. *)
Theorem start_takes_over_help help b k :
  let b' := start_commands help b in
  resolve b' "help" = Some (help (_descriptions b)) /\
  resolve b' "?" = Some (help (_descriptions b)) /\
  (k <> "help" -> k <> "?" -> resolve b' k = resolve b k) /\
  _descriptions b' = _descriptions b.
Proof.
  cbv zeta. rewrite !start_commands_resolve. repeat split.
  intros H1 H2. destruct (decide (k = "help" \/ k = "?")) as [[?|?]|];
    [contradiction | contradiction | reflexivity].
Qed.

(** ** Provisioning: what a call leaves alone *)

Lemma find_member_update_other g id id' f :
  id' <> id ->
  find_member (update_member id f g) id' = find_member g id'.
Proof.
  intros Hne. unfold find_member, update_member. cbn [members].
  induction (members g) as [|x xs IH]; [reflexivity|]. cbn [map find].
  destruct (String.eqb_spec (user_id (user x)) id) as [Hx|Hx];
    cbn [user user_id].
  - destruct (String.eqb_spec (user_id (user x)) id') as [Hx'|Hx'];
      [congruence | exact IH].
  - now rewrite IH.
Qed.

Lemma find_member_update_user g id f :
  user <$> find_member (update_member id f g) id
  = user <$> find_member g id.
Proof.
  destruct (find_member g id) as [m|] eqn:Hm.
  - now rewrite (find_member_update _ _ f _ Hm).
  - unfold find_member, update_member in *. cbn [members].
    induction (members g) as [|x xs IH]; [reflexivity|].
    cbn [map find] in *.
    destruct (String.eqb (user_id (user x)) id) eqn:Hx; [discriminate Hm|].
    rewrite Hx. now apply IH.
Qed.

Lemma update_member_users g id f :
  map user (members (update_member id f g)) = map user (members g).
Proof.
  unfold update_member. cbn [members]. rewrite map_map.
  apply map_ext. intros m. now destruct (String.eqb _ id).
Qed.

Lemma same_except_refl id b : same_except id b b.
Proof. now repeat split. Qed.

Lemma same_except_trans id b1 b2 b3 :
  same_except id b1 b2 -> same_except id b2 b3 -> same_except id b1 b3.
Proof.
  intros (A1 & A2 & A3 & A4 & A5 & A6 & A7 & A8)
         (B1 & B2 & B3 & B4 & B5 & B6 & B7 & B8).
  repeat split; try congruence.
  intros id' Hne. now rewrite B1, A1.
Qed.

Lemma same_except_update id f g b :
  _guild b = Some g ->
  same_except id b (set_guild (Some (update_member id f g)) b).
Proof.
  intros Hg. unfold same_except, cached_member.
  cbn [_guild set_guild _commands _descriptions REQUEST_COUNT _logChannel].
  rewrite Hg. cbn [mbind option_bind fmap option_fmap option_map].
  repeat split.
  - intros id' Hne. now apply find_member_update_other.
  - apply find_member_update_user.
  - now rewrite update_member_users.
Qed.

Lemma _assignUserRoles_frame P id names b :
  same_except id b (bot_of (_assignUserRoles P id names b)).
Proof.
  rewrite _assignUserRoles_eq, assign_body_eq.
  destruct (_guild b) as [g|] eqn:Hg; [|apply same_except_refl].
  destruct (find_member g id) as [m|]; [|apply same_except_refl].
  cbv zeta. destruct (addRoles_err P m _); [apply same_except_refl|].
  now apply same_except_update.
Qed.

Lemma _revokeUserRoles_frame P id names b :
  same_except id b (bot_of (_revokeUserRoles P id names b)).
Proof.
  rewrite _revokeUserRoles_eq, revoke_body_eq.
  destruct (_guild b) as [g|] eqn:Hg; [|apply same_except_refl].
  destruct (find_member g id) as [m|]; [|apply same_except_refl].
  cbv zeta. destruct (removeRoles_err P m _); [apply same_except_refl|].
  now apply same_except_update.
Qed.

(** X13. A Provision call for [id] touches nothing but the roles of the
    member with that id: every other member keeps exactly the roles it
    had, no member is added or removed, the role catalog, the command
    registry, the request counter and the log channel stay as they were. *)
Theorem provision_touches_only_its_member P id assign revoke b :
  same_except id b (bot_of (provisionUserRoles P id assign revoke b)).
Proof.
  destruct (provisionUserRoles_eq P id assign revoke b)
    as (s1 & b1 & t1 & s2 & b2 & t2 & E1 & E2 & ->).
  cbn [bot_of fst snd].
  apply (same_except_trans id b b1 b2).
  - rewrite assign_step_eq in E1.
    destruct (nonempty assign) as [names|].
    + pose proof (_assignUserRoles_frame P id names b) as H.
      now rewrite E1 in H.
    + injection E1 as _ <- _. apply same_except_refl.
  - rewrite revoke_step_eq in E2.
    destruct (nonempty revoke) as [names|], s1.
    + pose proof (_revokeUserRoles_frame P id (revoke_payload names) b1) as H.
      now rewrite E2 in H.
    + injection E2 as _ <- _. apply same_except_refl.
    + injection E2 as _ <- _. apply same_except_refl.
    + injection E2 as _ <- _. apply same_except_refl.
Qed.

Lemma _assignUserRoles_quiet_bot P id names b :
  bot_of (_assignUserRoles P id names b) = b \/
  exists m rs,
    In (EvAddRoles m rs None) (events_of (_assignUserRoles P id names b)).
Proof.
  rewrite _assignUserRoles_eq, assign_body_eq.
  destruct (_guild b) as [g|]; [|now left].
  destruct (find_member g id) as [m|]; [|now left].
  cbv zeta. destruct (addRoles_err P m _); [now left|].
  right. eexists _, _. now left.
Qed.

Lemma _revokeUserRoles_quiet_bot P id names b :
  bot_of (_revokeUserRoles P id names b) = b \/
  exists m rs,
    In (EvRemoveRoles m rs None) (events_of (_revokeUserRoles P id names b)).
Proof.
  rewrite _revokeUserRoles_eq, revoke_body_eq.
  destruct (_guild b) as [g|]; [|now left].
  destruct (find_member g id) as [m|]; [|now left].
  cbv zeta. destruct (removeRoles_err P m _); [now left|].
  right. eexists _, _. now left.
Qed.

(** X14. The bot changes only through an accepted platform request: if
    no role request of a Provision call was accepted (none was issued, or
    each was rejected), the bot after the call is the bot before it. *)
Theorem provision_changes_nothing_without_accepted_request
    P id assign revoke b :
  let run := provisionUserRoles P id assign revoke b in
  (forall m rs, ~ In (EvAddRoles m rs None) (events_of run)) ->
  (forall m rs, ~ In (EvRemoveRoles m rs None) (events_of run)) ->
  bot_of run = b.
Proof.
  cbv zeta.
  destruct (provisionUserRoles_eq P id assign revoke b)
    as (s1 & b1 & t1 & s2 & b2 & t2 & E1 & E2 & ->).
  cbn [bot_of events_of fst snd]. intros Hadd Hrem.
  assert (Hb1 : b1 = b).
  { rewrite assign_step_eq in E1. destruct (nonempty assign) as [names|].
    - destruct (_assignUserRoles_quiet_bot P id names b) as [H|(m & rs & H)];
        rewrite E1 in H; cbn in H; [exact H|].
      destruct (Hadd m rs). apply in_or_app. now left.
    - now injection E1 as _ <- _. }
  subst b1. rewrite revoke_step_eq in E2.
  destruct (nonempty revoke) as [names|], s1;
    try (now injection E2 as _ <- _).
  destruct (_revokeUserRoles_quiet_bot P id (revoke_payload names) b)
    as [H|(m & rs & H)]; rewrite E2 in H; cbn in H; [exact H|].
  destruct (Hrem m rs). apply in_or_app. now right.
Qed.

Lemma provision_changes_nothing_without_accepted_request_witness :
  bot_of (provisionUserRoles Fixtures.refusing "u1" (Some ["A"])
            (Some ["C"]) Fixtures.ready)
  = Fixtures.ready.
Proof.
  apply (provision_changes_nothing_without_accepted_request
           Fixtures.refusing "u1" (Some ["A"]) (Some ["C"]) Fixtures.ready).
  - intros m rs H. vm_compute in H.
    destruct H as [H|[H|[]]]; discriminate H.
  - intros m rs H. vm_compute in H.
    destruct H as [H|[H|[]]]; discriminate H.
Defined.

(** ** Provisioning: edge inputs *)

(** X15. With nothing to assign and nothing to revoke (each list absent
    or empty) Provision answers true without looking at the guild: no
    request, no log line, no audit entry, even for an unknown id or a
    client that is not ready. *)
Theorem provision_of_nothing_is_a_no_op P id assign revoke b :
  nonempty assign = None ->
  nonempty revoke = None ->
  provisionUserRoles P id assign revoke b = (Ok true, b, []).
Proof.
  intros Ha Hr.
  destruct (provisionUserRoles_eq P id assign revoke b)
    as (s1 & b1 & t1 & s2 & b2 & t2 & E1 & E2 & ->).
  rewrite assign_step_eq, Ha in E1. injection E1 as <- <- <-.
  rewrite revoke_step_eq, Hr in E2. now injection E2 as <- <- <-.
Qed.

Lemma provision_of_nothing_is_a_no_op_witness :
  provisionUserRoles Fixtures.refusing "ghost" (Some []) None new_Bot
  = (Ok true, new_Bot, []).
Proof.
  exact (provision_of_nothing_is_a_no_op Fixtures.refusing "ghost"
           (Some []) None new_Bot eq_refl eq_refl).
Defined.

Lemma revoke_payload_None names :
  revoke_payload names = None <-> names = [ALL].
Proof.
  unfold revoke_payload. split.
  - destruct names as [|n [|n' rest]]; cbn; try discriminate.
    destruct (String.eqb_spec n ALL) as [->|]; [reflexivity|discriminate].
  - now intros ->.
Qed.

Lemma provision_revoke_only P id names b :
  names <> [] ->
  provisionUserRoles P id None (Some names) b
  = _revokeUserRoles P id (revoke_payload names) b.
Proof.
  intros Hne.
  destruct (provisionUserRoles_eq P id None (Some names) b)
    as (s1 & b1 & t1 & s2 & b2 & t2 & E1 & E2 & ->).
  injection E1 as <- <- <-. rewrite revoke_step_eq in E2.
  assert (Hn : nonempty (Some names) = Some names)
    by (destruct names; [contradiction|reflexivity]).
  rewrite Hn in E2. cbn [app]. now rewrite <- E2.
Qed.

Lemma provision_assign_only P id names b :
  names <> [] ->
  provisionUserRoles P id (Some names) None b
  = _assignUserRoles P id names b.
Proof.
  intros Hne.
  destruct (provisionUserRoles_eq P id (Some names) None b)
    as (s1 & b1 & t1 & s2 & b2 & t2 & E1 & E2 & ->).
  rewrite assign_step_eq in E1.
  assert (Hn : nonempty (Some names) = Some names)
    by (destruct names; [contradiction|reflexivity]).
  rewrite Hn in E1. rewrite revoke_step_eq in E2. cbn [nonempty] in E2.
  injection E2 as <- <- <-. now rewrite E1, app_nil_r.
Qed.

(** X16. The revoke-all value only counts when it stands alone: a revoke
    list is handled as "strip everything" exactly when it is the one
    element list [ALL]; in every other non-empty list, [ALL] included
    among other names, each element is looked up as a role name. *)
Theorem revoke_all_only_when_alone P id names b :
  names <> [] ->
  provisionUserRoles P id None (Some names) b
  = _revokeUserRoles P id
      (if decide (names = [ALL]) then None else Some names) b.
Proof.
  intros Hne. rewrite (provision_revoke_only P id names b Hne). f_equal.
  destruct (decide (names = [ALL])) as [->|Hd]; [reflexivity|].
  destruct (revoke_payload names) eqn:E.
  - unfold revoke_payload in E. destruct (_ && _); congruence.
  - now apply revoke_payload_None in E.
Qed.

Lemma revoke_all_only_when_alone_witness :
  held_names
    (bot_of (provisionUserRoles Fixtures.calm "u1" None
               (Some [ALL; "A"]) Fixtures.ready)) "u1"
  = Some ["C"].
Proof.
  rewrite (revoke_all_only_when_alone Fixtures.calm "u1" [ALL; "A"]
             Fixtures.ready ltac:(discriminate)).
  reflexivity.
Defined.

(** X17. Before the client is ready there is no guild: a Provision call
    with something to assign fails in the assignment phase and skips the
    revocation; one with only something to revoke fails in the revocation
    phase; both answer false with a single failure line and issue no
    platform request.  [getUserRoles] throws instead of answering an
    empty list. *)
Theorem rpc_before_ready P id assign revoke b :
  _guild b = None ->
  let e := JS.TypeError_read "members" "undefined" in
  (nonempty assign <> None ->
   provisionUserRoles P id assign revoke b
   = (Ok false, b, [provisioning_failure e])) /\
  (nonempty assign = None -> nonempty revoke <> None ->
   provisionUserRoles P id assign revoke b
   = (Ok false, b, [revoke_failure e])) /\
  (forall id', getUserRoles id' b = (Throw e, b, [])).
Proof.
  intros Hg e.
  destruct (provisionUserRoles_eq P id assign revoke b)
    as (s1 & b1 & t1 & s2 & b2 & t2 & E1 & E2 & ->).
  rewrite assign_step_eq in E1. rewrite revoke_step_eq in E2.
  repeat split.
  - intros Ha. destruct (nonempty assign) as [names|]; [|contradiction].
    rewrite _assignUserRoles_eq, assign_body_eq, Hg in E1.
    injection E1 as <- <- <-.
    destruct (nonempty revoke); now injection E2 as <- <- <-.
  - intros Ha Hr. rewrite Ha in E1. injection E1 as <- <- <-.
    destruct (nonempty revoke) as [names|]; [|contradiction].
    rewrite _revokeUserRoles_eq, revoke_body_eq, Hg in E2.
    now injection E2 as <- <- <-.
  - intros id'. unfold getUserRoles.
    destruct (JS.truthy id'); run_m; now rewrite Hg.
Qed.

Lemma rpc_before_ready_witness :
  provisionUserRoles Fixtures.calm "u1" (Some ["A"]) (Some [ALL]) new_Bot
  = (Ok false, new_Bot,
     [provisioning_failure (JS.TypeError_read "members" "undefined")]).
Proof.
  exact (proj1 (rpc_before_ready Fixtures.calm "u1" (Some ["A"])
                  (Some [ALL]) new_Bot eq_refl) ltac:(discriminate)).
Defined.

(** ** Provisioning: which roles a request names *)

Lemma find_role_spec g n r :
  find_role g n = Some r -> In r (guild_roles g) /\ role_name r = n.
Proof.
  unfold find_role. intros H. apply find_some in H as [Hin Hn].
  split; [exact Hin | now apply String.eqb_eq].
Qed.

Lemma resolve_roles_length g names :
  length (resolve_roles g names) <= length names.
Proof.
  induction names as [|n ns IH]; cbn [resolve_roles length]; [lia|].
  destruct (find_role g n); cbn [length]; lia.
Qed.

(** X18. Role names are resolved leniently, in both phases: the roles
    of a request are the catalog roles found for the requested names, a
    name the catalog does not have contributes nothing, and so a request
    never names more roles than it has names nor a role outside the
    catalog. *)
Theorem resolve_roles_skips_unknown_names g names :
  (forall r, In r (resolve_roles g names) <->
             exists n, In n names /\ find_role g n = Some r) /\
  (forall r, In r (resolve_roles g names) ->
             In r (guild_roles g) /\ In (role_name r) names) /\
  length (resolve_roles g names) <= length names /\
  map role_name (resolve_roles g names)
  = List.filter (fun n => bool_decide (is_Some (find_role g n))) names.
Proof.
  assert (Hiff : forall r, In r (resolve_roles g names) <->
                           exists n, In n names /\ find_role g n = Some r).
  { induction names as [|n ns IH]; intros r; cbn [resolve_roles].
    - split; [intros [] | intros (? & [] & _)].
    - destruct (find_role g n) as [r0|] eqn:E; cbn [In]; rewrite IH.
      + split.
        * intros [<-|(n' & Hn' & Hr)]; [exists n; auto | exists n'; auto].
        * intros (n' & [<-|Hn'] & Hr); [left; congruence | right; eauto].
      + split.
        * intros (n' & Hn' & Hr). exists n'. auto.
        * intros (n' & [<-|Hn'] & Hr); [congruence | eauto]. }
  split; [exact Hiff|]. split; [|split].
  - intros r Hr. apply Hiff in Hr as (n & Hn & Hf).
    apply find_role_spec in Hf as [Hin <-]. now split.
  - apply resolve_roles_length.
  - clear Hiff. induction names as [|n ns IH]; [reflexivity|].
    cbn [resolve_roles List.filter].
    destruct (find_role g n) as [r0|] eqn:E.
    + rewrite bool_decide_eq_true_2 by eauto. cbn [map].
      apply find_role_spec in E as [_ ->]. now rewrite IH.
    + rewrite bool_decide_eq_false_2 by (intros [? ?]; discriminate).
      exact IH.
Qed.

Lemma with_roles_id m : with_roles (fun h => h) m = m.
Proof. now destruct m. Qed.

Lemma roles_removed_nil everyone held :
  roles_removed everyone held [] = held.
Proof.
  unfold roles_removed. induction held as [|r held IH]; [reflexivity|].
  cbn [List.filter has_role existsb negb]. rewrite orb_true_r.
  now f_equal.
Qed.

Lemma cached_member_update b g id f m :
  find_member g id = Some m ->
  cached_member (set_guild (Some (update_member id f g)) b) id
  = Some (with_roles f m).
Proof.
  intros Hm. unfold cached_member. cbn [_guild set_guild mbind option_bind].
  now rewrite (find_member_update _ _ _ _ Hm).
Qed.

(** X19. Revoking by name, for a member that exists and a request the
    platform accepts: the call succeeds, one removal request names the
    resolved roles, and the member keeps exactly the roles it held whose
    id is not among them, together with @everyone (the role with the
    guild's id), which no request removes.  When no requested name
    resolves the request is still made, with no role, and the member is
    unchanged. *)
Theorem named_revocation_removes_resolved_roles P id names b g m :
  _guild b = Some g ->
  find_member g id = Some m ->
  names <> [] ->
  names <> [ALL] ->
  removeRoles_err P m (resolve_roles g names) = None ->
  let run := provisionUserRoles P id None (Some names) b in
  let rs := resolve_roles g names in
  result_of run = Ok true /\
  In (EvRemoveRoles id rs None) (events_of run) /\
  cached_member (bot_of run) id
  = Some (with_roles (fun held => roles_removed (guild_id g) held rs) m) /\
  (forall r, In r (roles_removed (guild_id g) (roles m) rs) <->
             In r (roles m) /\
             (role_id r = guild_id g \/ has_role rs r = false)) /\
  (rs = [] -> cached_member (bot_of run) id = Some m).
Proof.
  intros Hg Hm Hne Hall Hok run rs. subst run.
  rewrite (provision_revoke_only P id names b Hne).
  assert (Hp : revoke_payload names = Some names).
  { destruct (revoke_payload names) eqn:E.
    - unfold revoke_payload in E. destruct (_ && _); congruence.
    - now apply revoke_payload_None in E. }
  rewrite Hp, _revokeUserRoles_eq, revoke_body_eq, Hg, Hm.
  cbn [rolesToRevoke]. cbv zeta. rewrite Hok. fold rs.
  cbn [result_of bot_of events_of fst snd].
  assert (Hc : cached_member
                 (set_guild
                    (Some (update_member id
                             (fun h => roles_removed (guild_id g) h rs) g))
                    b) id
               = Some (with_roles
                         (fun held => roles_removed (guild_id g) held rs) m))
    by now apply cached_member_update.
  split; [reflexivity|]. split; [now left|]. split; [exact Hc|]. split.
  - intros r. unfold roles_removed.
    rewrite filter_In, orb_true_iff, negb_true_iff, String.eqb_eq.
    reflexivity.
  - intros Hrs. rewrite Hc, Hrs. unfold with_roles.
    rewrite roles_removed_nil. now destruct m.
Qed.

Lemma named_revocation_removes_resolved_roles_witness :
  cached_member
    (bot_of (provisionUserRoles Fixtures.calm "u1" None
               (Some ["C"; "@everyone"; "nobody"]) Community.ready)) "u1"
  = Some {| user := Fixtures.alice; roles := [Community.everyone] |}.
Proof.
  exact (proj1 (proj2 (proj2
    (named_revocation_removes_resolved_roles Fixtures.calm "u1"
       ["C"; "@everyone"; "nobody"] Community.ready Community.guild2
       {| user := Fixtures.alice;
          roles := [Community.everyone; Fixtures.rC] |}
       eq_refl eq_refl ltac:(discriminate) ltac:(discriminate) eq_refl)))).
Defined.

Lemma roles_added_incl held rs r :
  In r held -> In r (roles_added held rs).
Proof.
  unfold roles_added. revert held.
  induction rs as [|a rs IH]; intros held H; [exact H|]. cbn [fold_left].
  apply IH. destruct (has_role held a); [exact H|].
  apply in_or_app. now left.
Qed.

Lemma has_role_iff rs r :
  has_role rs r = true <-> exists r', In r' rs /\ role_id r' = role_id r.
Proof.
  unfold has_role. rewrite existsb_exists.
  split; intros (r' & Hin & H); exists r'; split; auto;
    now apply String.eqb_eq.
Qed.

Lemma roles_added_has held rs r :
  In r rs -> has_role (roles_added held rs) r = true.
Proof.
  unfold roles_added. revert held.
  induction rs as [|a rs IH]; intros held Hin; [destruct Hin|].
  destruct Hin as [<-|H]; cbn [fold_left].
  - apply has_role_iff.
    destruct (has_role held a) eqn:E.
    + apply has_role_iff in E as (r' & Hin & Hid).
      exists r'. split; [now apply roles_added_incl | exact Hid].
    + exists a. split; [|reflexivity].
      apply (roles_added_incl (held ++ [a]) rs a).
      apply in_or_app. right. now left.
  - now apply IH.
Qed.

(** X20. What Provision assigns, GetRoles reports.  After an
    assignment-only call for a member that exists, accepted by the
    platform, [getUserRoles(id)] lists every role name the member had
    before and, for every role the request resolved, the name of a held
    role with that role's id. *)
Theorem assigned_roles_show_in_getUserRoles P id names b g m :
  id <> "" ->
  _guild b = Some g ->
  find_member g id = Some m ->
  names <> [] ->
  addRoles_err P m (resolve_roles g names) = None ->
  let run := provisionUserRoles P id (Some names) None b in
  result_of run = Ok true /\
  exists held,
    getUserRoles (Some id) (bot_of run)
    = (Ok [(id, map role_name held)], bot_of run, []) /\
    (forall r, In r (roles m) -> In r held) /\
    (forall r, In r (resolve_roles g names) ->
               exists r', In r' held /\ role_id r' = role_id r).
Proof.
  intros Hid Hg Hm Hne Hok run. subst run.
  rewrite (provision_assign_only P id names b Hne).
  rewrite _assignUserRoles_eq, assign_body_eq, Hg, Hm. cbv zeta.
  rewrite Hok. cbn [result_of bot_of fst snd]. split; [reflexivity|].
  exists (roles_added (roles m) (resolve_roles g names)). split; [|split].
  - unfold getUserRoles. destruct id as [|c id]; [contradiction|].
    cbn [JS.truthy]. run_m.
    now rewrite (find_member_update _ _ _ _ Hm).
  - intros r. apply roles_added_incl.
  - intros r Hr. apply has_role_iff. now apply roles_added_has.
Qed.

Lemma assigned_roles_show_in_getUserRoles_witness :
  exists held,
    getUserRoles (Some "u1")
      (bot_of (provisionUserRoles Fixtures.calm "u1" (Some ["A"; "zz"])
                 None Fixtures.ready))
    = (Ok [("u1", map role_name held)],
       bot_of (provisionUserRoles Fixtures.calm "u1" (Some ["A"; "zz"])
                 None Fixtures.ready), []) /\
    In Fixtures.rC held /\
    exists r', In r' held /\ role_id r' = "1".
Proof.
  destruct (assigned_roles_show_in_getUserRoles Fixtures.calm "u1"
              ["A"; "zz"] Fixtures.ready Fixtures.guild1
              {| user := Fixtures.alice; roles := [Fixtures.rC] |}
              ltac:(discriminate) eq_refl eq_refl ltac:(discriminate)
              eq_refl) as (_ & held & Hget & Hold & Hnew).
  exists held. split; [exact Hget|]. split.
  - apply Hold. now left.
  - apply (Hnew Fixtures.rA). now left.
Defined.

(** ** The calendar event store *)

Lemma event_store_add_lookup id e (s : gmap string EventStore.CalendarEvent)
    id' :
  EventStore.add id e s !! id'
  = match s !! id' with
    | Some old => Some old
    | None => if decide (id' = id) then Some e else None
    end.
Proof.
  unfold EventStore.add, EventStore.has.
  destruct (s !! id) as [old|] eqn:Hid.
  - rewrite bool_decide_eq_true_2 by eauto. cbn [negb].
    destruct (s !! id') eqn:Hid'; [reflexivity|].
    destruct (decide (id' = id)) as [->|]; [congruence | reflexivity].
  - rewrite bool_decide_eq_false_2 by (intros [? ?]; discriminate).
    cbn [negb]. rewrite lookup_insert.
    destruct (decide (id = id')) as [<-|Hne].
    + rewrite Hid. now destruct (decide (id = id)).
    + destruct (s !! id'); [reflexivity|].
      destruct (decide (id' = id)); [congruence | reflexivity].
Qed.

(** X21. [add] never overwrites: an id already in the store keeps the
    event stored under it, an absent id gets the new event, no other id
    is affected, and afterwards [has] answers true for the id. *)
Theorem event_store_add_keeps_existing id e
    (s : gmap string EventStore.CalendarEvent) :
  (forall old, s !! id = Some old -> EventStore.add id e s = s) /\
  (s !! id = None -> EventStore.add id e s !! id = Some e) /\
  (forall id', id' <> id -> EventStore.add id e s !! id' = s !! id') /\
  EventStore.has id (EventStore.add id e s) = true.
Proof.
  repeat split.
  - intros old H. apply map_eq. intros k. rewrite event_store_add_lookup.
    destruct (s !! k) eqn:Hk; [reflexivity|].
    destruct (decide (k = id)) as [->|]; [congruence | reflexivity].
  - intros H. rewrite event_store_add_lookup, H.
    now destruct (decide (id = id)).
  - intros id' Hne. rewrite event_store_add_lookup.
    destruct (s !! id'); [reflexivity|].
    now destruct (decide (id' = id)).
  - unfold EventStore.has at 1. apply bool_decide_eq_true_2.
    rewrite event_store_add_lookup.
    destruct (s !! id); [eauto|]. destruct (decide (id = id)); [eauto|].
    contradiction.
Qed.

Lemma event_store_add_all_lookup l (s : gmap string EventStore.CalendarEvent)
    k :
  EventStore.add_all l s !! k
  = match s !! k with
    | Some old => Some old
    | None => snd <$> find (fun p => String.eqb (fst p) k) l
    end.
Proof.
  unfold EventStore.add_all. revert s.
  induction l as [|[id e] l IH]; intros s; cbn [fold_left find fst snd].
  - now destruct (s !! k).
  - rewrite IH, event_store_add_lookup.
    destruct (s !! k) as [old|]; [reflexivity|].
    destruct (String.eqb_spec id k) as [->|Hne].
    + now destruct (decide (k = k)).
    + destruct (decide (k = id)); [congruence | reflexivity].
Qed.

(** X22. The event store is first-writer-wins: after any run of [add]
    calls on an empty store, an id holds the event of the first call made
    under it, and an id under which no call was made is absent. *)
Theorem event_store_first_add_wins pre id e post k :
  (forall p, In p pre -> fst p <> id) ->
  EventStore.add_all (pre ++ (id, e) :: post) ∅ !! id = Some e /\
  ((forall p, In p (pre ++ (id, e) :: post) -> fst p <> k) ->
   EventStore.has k (EventStore.add_all (pre ++ (id, e) :: post) ∅)
   = false).
Proof.
  intros Hpre. split.
  - rewrite event_store_add_all_lookup, lookup_empty.
    induction pre as [|[id0 e0] pre IH]; cbn [app find fst].
    + now rewrite String.eqb_refl.
    + destruct (String.eqb_spec id0 id) as [E|_].
      * destruct (Hpre (id0, e0) (or_introl eq_refl) E).
      * apply IH. intros p Hp. apply Hpre. now right.
  - intros Hk. unfold EventStore.has. apply bool_decide_eq_false_2.
    rewrite event_store_add_all_lookup, lookup_empty.
    destruct (find _ _) as [p|] eqn:E; [|intros [? ?]; discriminate].
    apply find_some in E as [Hin Heq]. apply String.eqb_eq in Heq.
    destruct (Hk p Hin Heq).
Qed.

Lemma event_store_first_add_wins_witness :
  let ev t :=
    {| EventStore.guid := "g1"; EventStore.title := t;
       EventStore.date := 0; EventStore.link := ""; EventStore.img := "";
       EventStore.group := "UOA3"; EventStore.reminders := ∅ |} in
  EventStore.add_all [("g1", ev "first"); ("g1", ev "second")] ∅ !! "g1"
  = Some (ev "first").
Proof.
  cbv zeta.
  exact (proj1 (event_store_first_add_wins [] "g1" _ [("g1", _)] "g2"
                  (fun _ H => match H with end))).
Defined.

(** ** The calendar feed reader *)

Lemma feed_step _findImage f items :
  CalendarFeed.readable f = [] ->
  let f' :=
    CalendarFeed._onFeedReadable _findImage
      {| CalendarFeed._eventsCache := CalendarFeed._eventsCache f;
         CalendarFeed.readable := CalendarFeed.readable f ++ items |} in
  CalendarFeed.readable f' = [] /\
  CalendarFeed.getEvents f'
  = match items with
    | [] => CalendarFeed.getEvents f
    | _ :: _ => map (CalendarFeed.event_of _findImage) items
    end.
Proof.
  intros Hr. rewrite Hr. cbn [app]. split; [reflexivity|].
  unfold CalendarFeed.getEvents, CalendarFeed._onFeedReadable.
  cbn [CalendarFeed._eventsCache CalendarFeed.readable].
  now destruct items.
Qed.

Lemma feed_all_snoc _findImage batches items f :
  CalendarFeed.feed_all _findImage (batches ++ [items]) f
  = CalendarFeed._onFeedReadable _findImage
      {| CalendarFeed._eventsCache :=
           CalendarFeed._eventsCache
             (CalendarFeed.feed_all _findImage batches f);
         CalendarFeed.readable :=
           CalendarFeed.readable
             (CalendarFeed.feed_all _findImage batches f) ++ items |}.
Proof. unfold CalendarFeed.feed_all. now rewrite fold_left_app. Qed.

Lemma feed_all_drained _findImage batches f :
  CalendarFeed.readable f = [] ->
  CalendarFeed.readable (CalendarFeed.feed_all _findImage batches f) = [].
Proof.
  intros Hr. induction batches as [|items batches IH] using rev_ind;
    [exact Hr|].
  rewrite feed_all_snoc. reflexivity.
Qed.

(** X23. The feed cache holds the latest batch that was not empty: when
    the parser announces batches of items one after the other, the cache
    ends up with the events of the last non-empty batch, in item order,
    replacing (not extending) what was cached; batches without items
    leave it alone, so a cache that has events never becomes empty. *)
Theorem feed_cache_holds_last_non_empty_batch _findImage f batches :
  CalendarFeed.readable f = [] ->
  let f' := CalendarFeed.feed_all _findImage batches f in
  (forall pre items post,
      batches = pre ++ items :: post ->
      items <> [] ->
      (forall x, In x post -> x = []) ->
      CalendarFeed.getEvents f'
      = map (CalendarFeed.event_of _findImage) items) /\
  ((forall x, In x batches -> x = []) ->
   CalendarFeed.getEvents f' = CalendarFeed.getEvents f) /\
  (CalendarFeed.getEvents f <> [] -> CalendarFeed.getEvents f' <> []).
Proof.
  intros Hr. cbv zeta.
  assert (Hstep : forall bs items,
    CalendarFeed.getEvents (CalendarFeed.feed_all _findImage (bs ++ [items]) f)
    = match items with
      | [] => CalendarFeed.getEvents (CalendarFeed.feed_all _findImage bs f)
      | _ :: _ => map (CalendarFeed.event_of _findImage) items
      end).
  { intros bs items. rewrite feed_all_snoc.
    apply (feed_step _findImage _ items), feed_all_drained, Hr. }
  assert (Hempty : forall bs, (forall x, In x bs -> x = []) ->
    CalendarFeed.getEvents (CalendarFeed.feed_all _findImage bs f)
    = CalendarFeed.getEvents f).
  { induction bs as [|x bs IH] using rev_ind; intros H; [reflexivity|].
    rewrite Hstep, (H x) by (apply in_or_app; right; now left).
    apply IH. intros y Hy. apply H, in_or_app. now left. }
  split; [|split].
  - intros pre items post -> Hne Hpost.
    induction post as [|x post IH] using rev_ind.
    + rewrite Hstep. destruct items; [contradiction|reflexivity].
    + replace (pre ++ items :: post ++ [x])
        with ((pre ++ items :: post) ++ [x])
        by now rewrite <- app_assoc.
      rewrite Hstep, (Hpost x) by (apply in_or_app; right; now left).
      apply IH. intros y Hy. apply Hpost, in_or_app. now left.
  - apply Hempty.
  - intros Hne. induction batches as [|x bs IH] using rev_ind; [exact Hne|].
    rewrite Hstep. destruct x; [exact IH | discriminate].
Qed.

Lemma feed_cache_holds_last_non_empty_batch_witness :
  let item t :=
    {| CalendarFeed.item_guid := t; CalendarFeed.item_title := t;
       CalendarFeed.item_date := None; CalendarFeed.item_link := "";
       CalendarFeed.item_summary := "" |} in
  let f0 := {| CalendarFeed._eventsCache := [];
               CalendarFeed.readable := [] |} in
  CalendarFeed.getEvents
    (CalendarFeed.feed_all (fun _ => None)
       [[item "a"]; [item "b"; item "c"]; []] f0)
  = map (CalendarFeed.event_of (fun _ => None)) [item "b"; item "c"].
Proof.
  cbv zeta.
  refine (proj1 (feed_cache_holds_last_non_empty_batch (fun _ => None)
                   {| CalendarFeed._eventsCache := [];
                      CalendarFeed.readable := [] |}
                   _ eq_refl)
            [[_]] [_; _] [[]] eq_refl _ _).
  - discriminate.
  - intros x [<-|[]]. reflexivity.
Defined.

(** ** Mission search *)

Lemma isMatch_iff toLowerCase testName fileName :
  Missions.isMatch toLowerCase testName fileName = true <->
  forall str, In str testName ->
    exists part, In part fileName /\ toLowerCase part = toLowerCase str.
Proof.
  unfold Missions.isMatch. cbv zeta. rewrite forallb_forall.
  split; intros H str Hin; specialize (H str Hin).
  - apply existsb_exists in H as (low & Hlow & Heq).
    apply in_map_iff in Hlow as (part & <- & Hpart).
    apply String.eqb_eq in Heq. eauto.
  - destruct H as (part & Hpart & Heq). apply existsb_exists.
    exists (toLowerCase part). split; [now apply in_map|].
    apply String.eqb_eq. congruence.
Qed.

(** X24. [isMatch] accepts a file name exactly when every search string
    equals, after lower-casing both, a whole component of the file name;
    a search string that is only part of a component does not count, and
    neither the order nor the repetition of strings or components
    matters. *)
Theorem isMatch_is_whole_component_match toLowerCase testName fileName :
  (Missions.isMatch toLowerCase testName fileName = true <->
   forall str, In str testName ->
     exists part, In part fileName /\ toLowerCase part = toLowerCase str) /\
  (forall testName' fileName',
      (forall str, In str testName' -> In str testName) ->
      (forall part, In part fileName -> In part fileName') ->
      Missions.isMatch toLowerCase testName fileName = true ->
      Missions.isMatch toLowerCase testName' fileName' = true).
Proof.
  split; [apply isMatch_iff|].
  intros testName' fileName' Ht Hf H. rewrite isMatch_iff in H |- *.
  intros str Hstr. destruct (H str (Ht str Hstr)) as (part & Hpart & Heq).
  exists part. auto.
Qed.

Lemma isMatch_is_whole_component_match_witness :
  Missions.isMatch Missions.lower ["V2"; "co40"]
    (JS.split "_" "CO40_Operation_Storm_v2") = true /\
  Missions.isMatch Missions.lower ["co"]
    (JS.split "_" "CO40_Operation_Storm_v2") = false.
Proof.
  split.
  - apply (proj2 (isMatch_is_whole_component_match Missions.lower
                    ["co40"; "V2"] ["CO40"; "v2"])
             ["V2"; "co40"] (JS.split "_" "CO40_Operation_Storm_v2")).
    + intros str [<-|[<-|[]]]; cbn; auto.
    + intros part [<-|[<-|[]]]; cbn; auto.
    + reflexivity.
  - reflexivity.
Defined.

(** X25. Matching ignores case whenever lower-casing a lower-cased
    string changes nothing: the answer is the same for the search strings
    and for the file name components as for their lower-case forms. *)
Theorem isMatch_ignores_case toLowerCase testName fileName :
  (forall s, toLowerCase (toLowerCase s) = toLowerCase s) ->
  Missions.isMatch toLowerCase (map toLowerCase testName)
    (map toLowerCase fileName)
  = Missions.isMatch toLowerCase testName fileName.
Proof.
  intros Hidem. apply eq_true_iff_eq. rewrite !isMatch_iff. split.
  - intros H str Hstr.
    destruct (H (toLowerCase str) (in_map _ _ _ Hstr))
      as (low & Hlow & Heq).
    apply in_map_iff in Hlow as (part & <- & Hpart).
    exists part. split; [exact Hpart|]. now rewrite !Hidem in Heq.
  - intros H low Hlow. apply in_map_iff in Hlow as (str & <- & Hstr).
    destruct (H str Hstr) as (part & Hpart & Heq).
    exists (toLowerCase part). split; [now apply in_map|].
    now rewrite !Hidem.
Qed.

Lemma ascii_lower_idem c :
  Missions.ascii_lower (Missions.ascii_lower c) = Missions.ascii_lower c.
Proof. destruct c as [[] [] [] [] [] [] [] []]; reflexivity. Qed.

Lemma lower_idem s : Missions.lower (Missions.lower s) = Missions.lower s.
Proof.
  induction s as [|c s IH]; [reflexivity|]. cbn [Missions.lower].
  now rewrite ascii_lower_idem, IH.
Qed.

Lemma isMatch_ignores_case_witness :
  Missions.isMatch Missions.lower ["storm"; "co40"]
    ["co40"; "operation"; "storm"; "v2"]
  = Missions.isMatch Missions.lower ["Storm"; "CO40"]
      ["CO40"; "Operation"; "Storm"; "v2"].
Proof.
  exact (isMatch_ignores_case Missions.lower ["Storm"; "CO40"]
           ["CO40"; "Operation"; "Storm"; "v2"] lower_idem).
Defined.

Lemma filter_names_spec toLowerCase args names :
  match Missions.filter_names toLowerCase args names with
  | Ok kept =>
      exists ns,
        names = map Some ns /\
        kept = List.filter
                 (fun n => Missions.isMatch toLowerCase args (JS.split "_" n))
                 ns
  | Throw e =>
      e = JS.TypeError_read "split" "undefined" /\ In None names
  end.
Proof.
  induction names as [|[n|] names IH]; cbn [Missions.filter_names].
  - now exists [].
  - destruct (Missions.filter_names toLowerCase args names) as [kept|e].
    + destruct IH as (ns & -> & ->). exists (n :: ns).
      split; [reflexivity|]. cbn [List.filter].
      now destruct (Missions.isMatch _ _ _).
    + destruct IH as [-> Hin]. split; [reflexivity | now right].
  - split; [reflexivity | now left].
Qed.

(** X26. Without a search string the mission search answers
    INVALID_ARGS and filters nothing.  With at least one it keeps, in the
    order and multiplicity of the fetched list, exactly the file names
    whose [_]-separated components match the search strings; if any
    fetched mission lacks the file name field the whole search throws a
    TypeError instead of skipping it. *)
Theorem missions_search_filters_in_order toLowerCase args liveMissionList :
  match Missions.search toLowerCase args liveMissionList with
  | None => args = []
  | Some (Ok matches) =>
      args <> [] /\
      exists fileNames,
        map (fun mission => Missions.fields mission !! Missions.FileName)
          liveMissionList
        = map Some fileNames /\
        matches
        = List.filter
            (fun n => Missions.isMatch toLowerCase args (JS.split "_" n))
            fileNames
  | Some (Throw e) =>
      args <> [] /\
      e = JS.TypeError_read "split" "undefined" /\
      exists mission,
        In mission liveMissionList /\
        Missions.fields mission !! Missions.FileName = None
  end.
Proof.
  unfold Missions.search, Missions.matchesByName.
  destruct args as [|a args]; [reflexivity|].
  cbn [length Nat.ltb Nat.leb].
  pose proof (filter_names_spec toLowerCase (a :: args)
    (map (fun mission => Missions.fields mission !! Missions.FileName)
       liveMissionList)) as H.
  destruct (Missions.filter_names _ _ _) as [kept|e].
  - split; [discriminate | exact H].
  - destruct H as [-> Hin]. split; [discriminate|]. split; [reflexivity|].
    apply in_map_iff in Hin as (mission & Hf & Hin). eauto.
Qed.
